(** * afkmute: the AFK-mute registry and its reconciliation handlers

    A shallow embedding of [afkmute.py]: the per-guild registry
    [AfkMuteState] (a config dictionary keyed by [str(user.id)]), the two
    mutating operations [set_afk_mute] / [unset_afk_mute], the start-up sweep
    [fetch_afk_mute_state] and the two gateway listeners
    [on_voice_state_update] and [on_member_message_action].

    Python methods become computations in a small state-and-exception monad.
    The state is the config dictionary together with the log of REST calls
    issued so far; the guild's voice-state cache and the outcome of each REST
    call are read from a [Platform] value that stays fixed during one call. *)

From Stdlib Require Import ZArith List String Ascii Bool Lia.
From Stdlib Require Import Decimal DecimalString DecimalZ.
Import ListNotations.

Local Open Scope string_scope.
Local Open Scope list_scope.
Local Open Scope Z_scope.

(** ** Data model *)

(** [hikari.Member]: the code only ever reads [.id] and calls [.edit]. *)
Record Member := mkMember { id : Z }.

(** The dataclass [AfkMuteInfo]; [as_dict] and the keyword-argument
    constructor convert it to and from the stored dictionary, which has the
    same two fields. *)
Record AfkMuteInfo := mkInfo { user_id : Z; muter_id : Z }.

(** [hikari.VoiceState], restricted to the attributes the listeners read. *)
Record VoiceState := mkVoiceState {
  member : Member;
  channel_id : option Z;
  is_guild_muted : bool;
  is_self_deafened : bool;
  is_self_muted : bool;
  is_streaming : bool;
  is_video_enabled : bool
}.

(** The three business exceptions (subclasses of [AfkMuteError]), the error
    raised by a failing REST call, and the [AttributeError] of [None.id]. *)
Inductive Exc :=
| UserAlreadyAfkMuteError
| UserNotAfkMuteError
| UserNotInVcError
| HikariError
| AttributeError.

(** REST calls issued against the platform, in the order they were made. *)
Inductive PlatformCall :=
| EditMute (uid : Z) (mute : bool)      (* [member.edit(mute=...)] *)
| FetchMember (uid : Z).                (* [app.rest.fetch_member(guild, uid)] *)

(** What the platform answers during one call of the program.
    [get_voice_state] is the guild's voice-state cache; [edit_ok] and
    [fetch_member_ok] tell whether the REST call succeeds (it raises
    otherwise); [cache_get_member] is [bot.cache.get_member]. *)
Record Platform := mkPlatform {
  get_voice_state : Z -> option VoiceState;
  edit_ok : Z -> bool -> bool;
  fetch_member_ok : Z -> bool;
  cache_get_member : Z -> option Member
}.

(** [hikari.VoiceStateUpdateEvent]: [old_state] is [None] when the user had
    no voice state before the event. *)
Record VoiceStateUpdateEvent := mkVoiceEvent {
  old_state : option VoiceState;
  state : VoiceState
}.

(** The three event classes [on_member_message_action] listens to.  The
    message events carry [event.member], which may be [None]; a reaction
    event carries only [event.user_id], resolved through the member cache. *)
Inductive MessageActionEvent :=
| GuildMessageCreateEvent (author : option Member)
| GuildMessageUpdateEvent (author : option Member)
| GuildReactionEvent (reactor_id : Z).

(** ** [str] on integers

    Dictionary keys are [str(user.id)]: the decimal numeral, with a leading
    minus sign for negative integers. *)
Definition str (z : Z) : string := NilZero.string_of_int (Z.to_int z).

(** ** The config dictionary

    [self.cfg] is a Python dictionary from strings to stored records:
    insertion-ordered, at most one entry per key. *)
Definition Cfg := list (string * AfkMuteInfo).

Fixpoint cfg_get (k : string) (c : Cfg) : option AfkMuteInfo :=
  match c with
  | [] => None
  | (k', v) :: c' => if String.eqb k k' then Some v else cfg_get k c'
  end.

(** [k in self.cfg] *)
Definition cfg_contains (k : string) (c : Cfg) : bool :=
  match cfg_get k c with Some _ => true | None => false end.

(** [self.cfg.set(k, v)]: overwrite in place, or append a new entry. *)
Fixpoint cfg_set (k : string) (v : AfkMuteInfo) (c : Cfg) : Cfg :=
  match c with
  | [] => [(k, v)]
  | (k', v') :: c' =>
      if String.eqb k k' then (k', v) :: c' else (k', v') :: cfg_set k v c'
  end.

(** [self.cfg.delete(k)] *)
Fixpoint cfg_delete (k : string) (c : Cfg) : Cfg :=
  match c with
  | [] => []
  | (k', v') :: c' =>
      if String.eqb k k' then cfg_delete k c' else (k', v') :: cfg_delete k c'
  end.

(** [self.cfg.opts.values()] *)
Definition cfg_values (c : Cfg) : list AfkMuteInfo := map snd c.

Definition cfg_keys (c : Cfg) : list string := map fst c.

(** ** The monad: state plus exceptions *)

Record State := mkState { cfg : Cfg; calls : list PlatformCall }.

Inductive Result (A : Type) :=
| Ok (a : A)
| Err (e : Exc).
Arguments Ok {A} a.
Arguments Err {A} e.

Definition M (A : Type) : Type := State -> Result A * State.

Definition ret {A} (a : A) : M A := fun st => (Ok a, st).

Definition raise {A} (e : Exc) : M A := fun st => (Err e, st).

Definition bind {A B} (m : M A) (f : A -> M B) : M B :=
  fun st =>
    match m st with
    | (Ok a, st') => f a st'
    | (Err e, st') => (Err e, st')
    end.

Notation "x <- m ;; k" := (bind m (fun x => k))
  (at level 61, m at next level, right associativity).
Notation "m ;; k" := (bind m (fun _ => k))
  (at level 61, right associativity).

(** A Python [if b: m] statement with no [else]. *)
Definition when (b : bool) (m : M unit) : M unit := if b then m else ret tt.

Definition get_cfg : M Cfg := fun st => (Ok (cfg st), st).

Definition modify_cfg (f : Cfg -> Cfg) : M unit :=
  fun st => (Ok tt, mkState (f (cfg st)) (calls st)).

Definition log_call (c : PlatformCall) : M unit :=
  fun st => (Ok tt, mkState (cfg st) (calls st ++ [c])).

(** ** REST calls *)

Section Program.

Variable env : Platform.

(** [await user.edit(mute=mute)] *)
Definition edit (user : Member) (mute : bool) : M unit :=
  log_call (EditMute (id user) mute) ;;
  if edit_ok env (id user) mute then ret tt else raise HikariError.

(** [await app.rest.fetch_member(self.guild.id, uid)] *)
Definition fetch_member (uid : Z) : M Member :=
  log_call (FetchMember uid) ;;
  if fetch_member_ok env uid then ret (mkMember uid) else raise HikariError.

(** ** class AfkMuteState *)

Definition is_afk_mute (user : Member) : M bool :=
  c <- get_cfg ;;
  ret (cfg_contains (str (id user)) c).

Definition is_user_in_vc (user : Member) : M bool :=
  ret (match get_voice_state env (id user) with Some _ => true | None => false end).

Definition set_afk_mute (user muter : Member) : M AfkMuteInfo :=
  muted <- is_afk_mute user ;;
  when muted (raise UserAlreadyAfkMuteError) ;;
  in_vc <- is_user_in_vc user ;;
  when in_vc (edit user true) ;;
  let i := mkInfo (id user) (id muter) in
  modify_cfg (cfg_set (str (id user)) i) ;;
  ret i.

Definition unset_afk_mute (user : Member) (no_vc_ok : bool) : M unit :=
  muted <- is_afk_mute user ;;
  when (negb muted) (raise UserNotAfkMuteError) ;;
  in_vc <- is_user_in_vc user ;;
  when (negb no_vc_ok && negb in_vc) (raise UserNotInVcError) ;;
  when (negb no_vc_ok) (edit user false) ;;
  modify_cfg (cfg_delete (str (id user))).

(** The [for info in info_items] loop of [fetch_afk_mute_state]. *)
Fixpoint fetch_loop (info_items : list AfkMuteInfo) : M unit :=
  match info_items with
  | [] => ret tt
  | info :: rest =>
      member <- fetch_member (user_id info) ;;
      match get_voice_state env (id member) with
      | Some voice_state =>
          when (negb (is_guild_muted voice_state)) (unset_afk_mute member true)
      | None => ret tt
      end ;;
      fetch_loop rest
  end.

Definition fetch_afk_mute_state : M unit :=
  c <- get_cfg ;;
  let info_items := cfg_values c in
  fetch_loop info_items.

(** ** Listener for [hikari.VoiceStateUpdateEvent] *)

(** The Python conjunction [b and m()]: [m] runs only when [b] holds. *)
Definition and_then (b : bool) (m : M bool) : M bool :=
  if b then m else ret false.

(** The attribute names of [user_status], as accessors ([getattr]). *)
Definition user_status : list (VoiceState -> bool) :=
  [is_self_deafened; is_self_muted; is_streaming; is_video_enabled].

(** The [for status in user_status] loop; its [return] ends the listener. *)
Fixpoint status_loop (old cur : VoiceState)
    (statuses : list (VoiceState -> bool)) : M unit :=
  match statuses with
  | [] => ret tt
  | status :: rest =>
      let prev := status old in
      let cur_v := status cur in
      if negb (Bool.eqb prev cur_v)
      then unset_afk_mute (member cur) false
      else status_loop old cur rest
  end.

Definition on_voice_state_update (event : VoiceStateUpdateEvent) : M unit :=
  let manually_unmuted :=
    match old_state event with
    | Some old => is_guild_muted old && negb (is_guild_muted (state event))
    | None => false
    end in
  rule1 <- and_then manually_unmuted (is_afk_mute (member (state event))) ;;
  if rule1 then unset_afk_mute (member (state event)) false
  else
    let joined_vc :=
      match old_state event, channel_id (state event) with
      | None, Some _ => true
      | _, _ => false
      end in
    rule2 <- and_then joined_vc
               (muted <- is_afk_mute (member (state event)) ;;
                ret (muted && negb (is_guild_muted (state event)))) ;;
    when rule2 (edit (member (state event)) true) ;;
    match old_state event with
    | None => ret tt
    | Some old => status_loop old (state event) user_status
    end.

(** ** Listener for message and reaction events *)

(** [try: m  except UserNotInVcError: pass] *)
Definition try_except_UserNotInVcError (m : M unit) : M unit :=
  fun st =>
    match m st with
    | (Err UserNotInVcError, st') => (Ok tt, st')
    | r => r
    end.

Definition on_member_message_action (event : MessageActionEvent) : M unit :=
  let member :=
    match event with
    | GuildReactionEvent uid => cache_get_member env uid
    | GuildMessageCreateEvent m => m
    | GuildMessageUpdateEvent m => m
    end in
  match member with
  | None => raise AttributeError          (* [None.id] in [is_afk_mute] *)
  | Some member =>
      muted <- is_afk_mute member ;;
      when muted (try_except_UserNotInVcError (unset_afk_mute member false))
  end.

End Program.

(** ** [AfkMuteInfo.as_dict] and the keyword constructor

    The registry stores [i.as_dict()] and the sweep rebuilds each record
    with the dataclass constructor applied to the stored dictionary's
    entries as keyword arguments. *)

(** A stored dictionary: field name to value, first binding wins. *)
Definition ConfigDict := list (string * Z).

Fixpoint dict_get (k : string) (d : ConfigDict) : option Z :=
  match d with
  | [] => None
  | (k', v) :: d' => if String.eqb k k' then Some v else dict_get k d'
  end.

(** [dataclasses.asdict(self)]: the fields in declaration order. *)
Definition as_dict (i : AfkMuteInfo) : ConfigDict :=
  [("user_id", user_id i); ("muter_id", muter_id i)].

(** The generated [__init__(self, user_id, muter_id)] called with keyword
    arguments: [None] stands for the [TypeError] raised on an unexpected
    keyword or a missing argument. *)
Definition AfkMuteInfo_init (value : ConfigDict) : option AfkMuteInfo :=
  if forallb (fun kv => String.eqb (fst kv) "user_id"
                        || String.eqb (fst kv) "muter_id") value
  then match dict_get "user_id" value, dict_get "muter_id" value with
       | Some u, Some m => Some (mkInfo u m)
       | _, _ => None
       end
  else None.

(** ** The slash commands

    [ctx.respond(...)] is the last statement on every path of both
    commands; the response is modelled as the value the command returns. *)
Inductive Response :=
| RespondError (text : string)        (* [err_embed(text)], ephemeral *)
| RespondSuccess (text : string)      (* [success_embed(text)], ephemeral *)
| RespondAfkMuted (target : Member).  (* the notice mentioning the target *)

(** [afkmute]: [target] is [ctx.options.user], [invoker] is [ctx.member]. *)
Definition afkmute (env : Platform) (target invoker : Member) : M Response :=
  fun st =>
    match set_afk_mute env target invoker st with
    | (Err UserAlreadyAfkMuteError, st') =>
        (Ok (RespondError "This user is already afk-muted."), st')
    | (Err e, st') => (Err e, st')
    | (Ok _, st') => (Ok (RespondAfkMuted target), st')
    end.

(** [unafkmute]: always acts on [ctx.member], with the default
    [no_vc_ok=False]. *)
Definition unafkmute (env : Platform) (invoker : Member) : M Response :=
  fun st =>
    match unset_afk_mute env invoker false st with
    | (Err UserNotAfkMuteError, st') =>
        (Ok (RespondError "You are not afk-muted."), st')
    | (Err UserNotInVcError, st') =>
        (Ok (RespondError "You must be in vc to remove afk-mute status."), st')
    | (Err e, st') => (Err e, st')
    | (Ok _, st') => (Ok (RespondSuccess "You have been unmuted."), st')
    end.

(** ** Listener for [hikari.StartedEvent]

    One registry per guild, looked up by guild id.  [is_ready n] is the value
    of [s.is_ready] read after the sleep of iteration [n]; [fetch_my_guilds]
    is the guild list the REST call returns ([None] when it raises);
    [guild_env] gives each guild's voice cache and REST answers. *)
Record Bot := mkBot {
  is_ready : nat -> bool;
  fetch_my_guilds : option (list Z);
  guild_env : Z -> Platform
}.

Definition Store := Z -> State.

Definition store_set (g : Z) (st : State) (s : Store) : Store :=
  fun g' => if g' =? g then st else s g'.

(** The [for _ in range(n)] loop with its [break]: [true] when some
    iteration saw the flag set, [false] when the [else] branch runs. *)
Fixpoint wait_ready (ready : nat -> bool) (i n : nat) : bool :=
  match n with
  | O => false
  | S n' => if ready i then true else wait_ready ready (S i) n'
  end.

(** The [for guild in ...] loop: an exception of one guild's sweep ends it. *)
Fixpoint sweep_guilds (bot : Bot) (guilds : list Z) (s : Store)
    : Result unit * Store :=
  match guilds with
  | [] => (Ok tt, s)
  | g :: rest =>
      match fetch_afk_mute_state (guild_env bot g) (s g) with
      | (Ok _, st') => sweep_guilds bot rest (store_set g st' s)
      | (Err e, st') => (Err e, store_set g st' s)
      end
  end.

Definition on_started (bot : Bot) (s : Store) : Result unit * Store :=
  if wait_ready (is_ready bot) 0 10 then
    match fetch_my_guilds bot with
    | Some guilds => sweep_guilds bot guilds s
    | None => (Err HikariError, s)
    end
  else (Ok tt, s).

(** * Notions used in the statements *)

(** Every entry the program writes is stored under [str] of its own
    [user_id], and a dictionary has one entry per key. *)
Definition well_keyed (c : Cfg) : Prop :=
  Forall (fun kv => fst kv = str (user_id (snd kv))) c.

Definition well_formed (c : Cfg) : Prop :=
  NoDup (cfg_keys c) /\ well_keyed c.

Definition in_vc (env : Platform) (user : Member) : bool :=
  match get_voice_state env (id user) with Some _ => true | None => false end.

(** One call of [set_afk_mute] (apply) or [unset_afk_mute] (clear). *)
Inductive Op :=
| Apply (user muter : Member)
| Clear (user : Member) (no_vc_ok : bool).

(** The state a call leaves behind, whether it returned or raised. *)
Definition run_op (env : Platform) (op : Op) (st : State) : State :=
  match op with
  | Apply user muter => snd (set_afk_mute env user muter st)
  | Clear user no_vc_ok => snd (unset_afk_mute env user no_vc_ok st)
  end.

Definition run_ops (env : Platform) (ops : list Op) (st : State) : State :=
  fold_left (fun s op => run_op env op s) ops st.

(** Some stored record is about [user]. *)
Definition record_exists (c : Cfg) (user : Member) : Prop :=
  exists r, In r (cfg_values c) /\ user_id r = id user.

(** Some attribute of [user_status] differs between the two snapshots. *)
Definition status_changed (old cur : VoiceState) : bool :=
  existsb (fun status => negb (Bool.eqb (status old) (status cur))) user_status.

(** The member the listener works on: [event.member] for the message
    events, the cached member of [event.user_id] for a reaction. *)
Definition acting_member (env : Platform) (event : MessageActionEvent)
    : option Member :=
  match event with
  | GuildReactionEvent uid => cache_get_member env uid
  | GuildMessageCreateEvent m => m
  | GuildMessageUpdateEvent m => m
  end.

(** The condition of the sweep's [if]: the user has a cached voice state and
    it is not guild-muted. *)
Definition drifted (env : Platform) (uid : Z) : bool :=
  match get_voice_state env uid with
  | Some voice_state => negb (is_guild_muted voice_state)
  | None => false
  end.

Definition log_fetch (uid : Z) (st : State) : State :=
  mkState (cfg st) (calls st ++ [FetchMember uid]).

(** The registry the sweep leaves behind, computed directly on the entries:
    entries are visited in order, a drifted user's entry is dropped, and a
    failing [fetch_member] stops the visit with the rest untouched. *)
Fixpoint swept (env : Platform) (l : Cfg) : Cfg :=
  match l with
  | [] => []
  | (k, r) :: l' =>
      if fetch_member_ok env (user_id r) then
        if drifted env (user_id r) then swept env l'
        else (k, r) :: swept env l'
      else (k, r) :: l'
  end.

(** The users the loop asks the platform about: every item in turn, up to
    and including the first one whose [fetch_member] fails. *)
Fixpoint visited (env : Platform) (items : list AfkMuteInfo) : list Z :=
  match items with
  | [] => []
  | info :: rest =>
      user_id info ::
      (if fetch_member_ok env (user_id info) then visited env rest else [])
  end.

(** The clear calls the specification asks of the sweep, to compare the
    loop with: one [unset_afk_mute(member, no_vc_ok=True)] per stored record
    whose user has a voice state that is not guild-muted, in the order of
    the records. *)
Definition sweep_clears (env : Platform) (c : Cfg) : list Op :=
  map (fun uid => Clear (mkMember uid) true)
      (filter (drifted env) (map user_id (cfg_values c))).

(** * Example inputs *)

(** Two users. *)
Definition alice : Member := mkMember 1.
Definition bob : Member := mkMember 2.

Definition voice_of (uid : Z) (guild_muted : bool) : VoiceState :=
  mkVoiceState (mkMember uid) (Some 100) guild_muted false false false false.

(** Nobody is in voice; every REST call succeeds. *)
Definition env_empty_voice : Platform :=
  mkPlatform (fun _ => None) (fun _ _ => true) (fun _ => true)
             (fun uid => Some (mkMember uid)).

(** User 1 is in voice and not guild-muted; every REST call succeeds. *)
Definition env_alice_in_voice : Platform :=
  mkPlatform (fun uid => if uid =? 1 then Some (voice_of 1 false) else None)
             (fun _ _ => true) (fun _ => true)
             (fun uid => Some (mkMember uid)).

(** As before, but the platform refuses every [edit]. *)
Definition env_edit_refused : Platform :=
  mkPlatform (fun uid => if uid =? 1 then Some (voice_of 1 false) else None)
             (fun _ _ => false) (fun _ => true)
             (fun uid => Some (mkMember uid)).

Definition st_empty : State := mkState [] [].

(** The registry after user 2 has AFK-muted user 1. *)
Definition st_alice_muted : State := mkState [("1", mkInfo 1 2)] [].

(** User 1 was guild-muted and is no longer; at the same time the
    self-deafen flag changed, so rule 3 would apply as well. *)
Definition ev_admin_unmuted : VoiceStateUpdateEvent :=
  mkVoiceEvent (Some (voice_of 1 true))
    (mkVoiceState alice (Some 100) false true false false false).

(** User 1, in voice and never AFK-muted, turns self-mute on. *)
Definition ev_self_mute_on : VoiceStateUpdateEvent :=
  mkVoiceEvent (Some (voice_of 1 false))
    (mkVoiceState alice (Some 100) false false true false false).

(** User 1 is moved from channel 100 to channel 200; nothing else changes. *)
Definition ev_channel_move : VoiceStateUpdateEvent :=
  mkVoiceEvent (Some (voice_of 1 false))
    (mkVoiceState alice (Some 200) false false false false false).

(** An event for user 1 with no previous snapshot and no channel. *)
Definition ev_no_channel : VoiceStateUpdateEvent :=
  mkVoiceEvent None (mkVoiceState alice None false false false false false).

(** User 1 joins channel 100 with no previous snapshot, not guild-muted. *)
Definition ev_join : VoiceStateUpdateEvent :=
  mkVoiceEvent None (voice_of 1 false).

(** Users 1 and 2 both have a record; only user 1 is in voice. *)
Definition st_both_muted : State :=
  mkState [("1", mkInfo 1 2); ("2", mkInfo 2 1)] [].

(** * Further notions and inputs *)

(** The user an operation is aimed at. *)
Definition op_user (op : Op) : Member :=
  match op with
  | Apply user _ => user
  | Clear user _ => user
  end.

(** The condition of rule 1 on the two snapshots. *)
Definition manually_unmuted (old cur : VoiceState) : bool :=
  is_guild_muted old && negb (is_guild_muted cur).

(** The sweep of guild [g] as [on_started] runs it on store [s]. *)
Definition guild_sweep (bot : Bot) (s : Store) (g : Z) : Result unit * State :=
  fetch_afk_mute_state (guild_env bot g) (s g).

(** [st'] holds no entry and no [edit] call that [st] does not hold. *)
Definition shrinks (st' st : State) : Prop :=
  (forall kv, In kv (cfg st') -> In kv (cfg st)) /\
  (forall uid mute,
     In (EditMute uid mute) (calls st') -> In (EditMute uid mute) (calls st)).

Definition carol : Member := mkMember 3.

(** User 1 leaves voice: the previous snapshot was self-muted, the current
    one has no channel and the flag is reset. *)
Definition ev_leave : VoiceStateUpdateEvent :=
  mkVoiceEvent
    (Some (mkVoiceState alice (Some 100) false false true false false))
    (mkVoiceState alice None false false false false false).

(** User 1 is in voice and not guild-muted, but [fetch_member] fails for
    user 2. *)
Definition env_fetch_2_fails : Platform :=
  mkPlatform (fun uid => if uid =? 1 then Some (voice_of 1 false) else None)
             (fun _ _ => true) (fun uid => negb (uid =? 2))
             (fun uid => Some (mkMember uid)).

(** Users 3 and 1 are in voice and not guild-muted. *)
Definition env_three : Platform :=
  mkPlatform (fun uid => if (uid =? 1) || (uid =? 3)
                         then Some (voice_of uid false) else None)
             (fun _ _ => true) (fun uid => negb (uid =? 2))
             (fun uid => Some (mkMember uid)).

Definition st_three_muted : State :=
  mkState [("1", mkInfo 1 2); ("2", mkInfo 2 1); ("3", mkInfo 3 1)] [].

(** A bot in guilds 10 and 20, ready at the third poll. *)
Definition bot_ready : Bot :=
  mkBot (fun n => Nat.leb 2 n) (Some [10; 20])
        (fun g => if g =? 10 then env_fetch_2_fails else env_alice_in_voice).

(** The same bot when the flag is first seen set at the eleventh poll. *)
Definition bot_late : Bot :=
  mkBot (fun n => Nat.leb 10 n) (Some [10; 20])
        (fun g => if g =? 10 then env_fetch_2_fails else env_alice_in_voice).

(** Both guilds hold records for users 1 and 2. *)
Definition store_both : Store := fun _ => st_both_muted.

(** * Properties *)

(** ** [str] is injective *)

Lemma to_int_nonnil (z : Z) :
  Z.to_int z <> Pos Nil /\ Z.to_int z <> Neg Nil.
Proof.
  destruct z as [|p|p]; simpl; split; try discriminate;
    intros [= H]; exact (DecimalPos.Unsigned.to_uint_nonnil p H).
Qed.

Lemma str_inj (a b : Z) : str a = str b -> a = b.
Proof.
  unfold str; intros H.
  destruct (to_int_nonnil a) as [Ha1 Ha2], (to_int_nonnil b) as [Hb1 Hb2].
  pose proof (NilZero.isi _ Ha1 Ha2) as Ea.
  pose proof (NilZero.isi _ Hb1 Hb2) as Eb.
  rewrite H in Ea. rewrite Ea in Eb. injection Eb as Eb.
  apply DecimalZ.to_int_inj; exact Eb.
Qed.

Lemma str_eqb (a b : Z) : String.eqb (str a) (str b) = Z.eqb a b.
Proof.
  destruct (Z.eqb_spec a b) as [->|N].
  - apply String.eqb_refl.
  - apply String.eqb_neq. intros E. apply N, str_inj, E.
Qed.

Example str_42 : str 42 = "42".
Proof. reflexivity. Qed.

Example str_0 : str 0 = "0".
Proof. reflexivity. Qed.

Example str_neg7 : str (-7) = "-7".
Proof. reflexivity. Qed.

(** ** The dictionary operations *)

Lemma cfg_contains_In (k : string) (c : Cfg) :
  cfg_contains k c = true <-> In k (cfg_keys c).
Proof.
  unfold cfg_contains.
  induction c as [|[k' v] c IH]; simpl.
  - split; [discriminate | tauto].
  - destruct (String.eqb_spec k k') as [->|N].
    + split; auto.
    + rewrite IH. split; [auto | intros [E|H]; [congruence | exact H]].
Qed.

Lemma cfg_contains_false (k : string) (c : Cfg) :
  cfg_contains k c = false <-> ~ In k (cfg_keys c).
Proof.
  rewrite <- cfg_contains_In. destruct (cfg_contains k c); split; congruence.
Qed.

Lemma cfg_get_set_same k v c : cfg_get k (cfg_set k v c) = Some v.
Proof.
  induction c as [|[k' v'] c IH]; simpl.
  - now rewrite String.eqb_refl.
  - destruct (String.eqb k k') eqn:E; simpl; rewrite E; auto.
Qed.

Lemma cfg_get_set_other k k' v c :
  k' <> k -> cfg_get k' (cfg_set k v c) = cfg_get k' c.
Proof.
  intros N. induction c as [|[k0 v0] c IH]; simpl.
  - apply String.eqb_neq in N. now rewrite N.
  - destruct (String.eqb_spec k k0) as [->|N0]; simpl.
    + apply String.eqb_neq in N. now rewrite N.
    + now rewrite IH.
Qed.

Lemma cfg_get_delete_same k c : cfg_get k (cfg_delete k c) = None.
Proof.
  induction c as [|[k' v'] c IH]; simpl; auto.
  destruct (String.eqb k k') eqn:E; simpl; [|rewrite E]; auto.
Qed.

Lemma cfg_get_delete_other k k' c :
  k' <> k -> cfg_get k' (cfg_delete k c) = cfg_get k' c.
Proof.
  intros N. induction c as [|[k0 v0] c IH]; simpl; auto.
  destruct (String.eqb_spec k k0) as [->|N0]; simpl.
  - apply String.eqb_neq in N. now rewrite N.
  - now rewrite IH.
Qed.

(** Setting a key that is absent appends the entry at the end. *)
Lemma cfg_set_absent k v c :
  cfg_contains k c = false -> cfg_set k v c = c ++ [(k, v)].
Proof.
  unfold cfg_contains.
  induction c as [|[k' v'] c IH]; simpl; auto.
  destruct (String.eqb k k'); [discriminate|].
  intros H. now rewrite IH.
Qed.

(** Deleting keeps the other entries, in their order. *)
Lemma cfg_delete_filter k c :
  cfg_delete k c = filter (fun kv => negb (String.eqb k (fst kv))) c.
Proof.
  induction c as [|[k' v'] c IH]; simpl; auto.
  destruct (String.eqb k k'); simpl; now rewrite IH.
Qed.

Lemma cfg_delete_absent k c :
  ~ In k (cfg_keys c) -> cfg_delete k c = c.
Proof.
  induction c as [|[k' v'] c IH]; simpl; auto.
  intros H. destruct (String.eqb_spec k k') as [->|N].
  - exfalso; auto.
  - f_equal. apply IH. tauto.
Qed.

Lemma cfg_delete_In kv k c :
  In kv (cfg_delete k c) <-> In kv c /\ fst kv <> k.
Proof.
  rewrite cfg_delete_filter, filter_In.
  destruct (String.eqb_spec k (fst kv)); simpl; intuition congruence.
Qed.

(** ** Well-formed registries *)

Lemma well_formed_nil : well_formed [].
Proof. split; constructor. Qed.

Lemma cfg_keys_set_absent k v c :
  cfg_contains k c = false -> cfg_keys (cfg_set k v c) = cfg_keys c ++ [k].
Proof.
  intros H. rewrite cfg_set_absent by exact H.
  unfold cfg_keys. now rewrite map_app.
Qed.

Lemma well_formed_set uid muter c :
  well_formed c -> cfg_contains (str uid) c = false ->
  well_formed (cfg_set (str uid) (mkInfo uid muter) c).
Proof.
  intros [ND WK] H. split.
  - rewrite cfg_keys_set_absent by exact H.
    apply cfg_contains_false in H.
    apply NoDup_rev in ND. rewrite <- (rev_involutive (_ ++ _)).
    apply NoDup_rev. rewrite rev_app_distr. simpl. constructor; auto.
    now rewrite <- in_rev.
  - rewrite cfg_set_absent by exact H. unfold well_keyed in *.
    apply Forall_app. split; auto.
Qed.

Lemma well_formed_delete k c :
  well_formed c -> well_formed (cfg_delete k c).
Proof.
  intros [ND WK]. rewrite cfg_delete_filter. split.
  - unfold cfg_keys in *. induction c as [|[k' v'] c IH]; simpl; auto.
    inversion ND as [|? ? Hn ND']; subst. inversion WK; subst.
    destruct (negb (String.eqb k k')); simpl; auto.
    constructor; auto.
    intros Hin. apply Hn. apply in_map_iff in Hin as [x [E Hx]].
    apply filter_In in Hx as [Hx _]. apply in_map_iff. eauto.
  - unfold well_keyed in *. rewrite Forall_forall in *.
    intros x Hx. apply filter_In in Hx as [Hx _]. auto.
Qed.

(** ** The two registry operations, case by case *)

Lemma is_afk_mute_eval user st :
  is_afk_mute user st = (Ok (cfg_contains (str (id user)) (cfg st)), st).
Proof. reflexivity. Qed.

Lemma set_afk_mute_eval env user muter st :
  set_afk_mute env user muter st =
  let k := str (id user) in
  let i := mkInfo (id user) (id muter) in
  if cfg_contains k (cfg st) then (Err UserAlreadyAfkMuteError, st)
  else if in_vc env user then
    if edit_ok env (id user) true
    then (Ok i, mkState (cfg_set k i (cfg st))
                        (calls st ++ [EditMute (id user) true]))
    else (Err HikariError,
          mkState (cfg st) (calls st ++ [EditMute (id user) true]))
  else (Ok i, mkState (cfg_set k i (cfg st)) (calls st)).
Proof.
  unfold set_afk_mute, in_vc, is_afk_mute, is_user_in_vc, edit, bind, when,
    get_cfg, ret, raise, modify_cfg, log_call; simpl.
  destruct (cfg_contains _ _); [reflexivity|].
  destruct (get_voice_state env (id user)); [|reflexivity].
  destruct (edit_ok env (id user) true); reflexivity.
Qed.

Lemma unset_afk_mute_eval env user no_vc_ok st :
  unset_afk_mute env user no_vc_ok st =
  let k := str (id user) in
  if negb (cfg_contains k (cfg st)) then (Err UserNotAfkMuteError, st)
  else if no_vc_ok then (Ok tt, mkState (cfg_delete k (cfg st)) (calls st))
  else if negb (in_vc env user) then (Err UserNotInVcError, st)
  else if edit_ok env (id user) false
    then (Ok tt, mkState (cfg_delete k (cfg st))
                         (calls st ++ [EditMute (id user) false]))
    else (Err HikariError,
          mkState (cfg st) (calls st ++ [EditMute (id user) false])).
Proof.
  unfold unset_afk_mute, in_vc, is_afk_mute, is_user_in_vc, edit, bind, when,
    get_cfg, ret, raise, modify_cfg, log_call; simpl.
  destruct (cfg_contains _ _); [|reflexivity].
  destruct no_vc_ok; simpl; [reflexivity|].
  destruct (get_voice_state env (id user)); [|reflexivity].
  destruct (edit_ok env (id user) false); reflexivity.
Qed.

(** What a successful clear tells about the state before and after. *)
Lemma unset_afk_mute_ok env user no_vc_ok st st' :
  unset_afk_mute env user no_vc_ok st = (Ok tt, st') ->
  cfg_contains (str (id user)) (cfg st) = true /\
  cfg st' = cfg_delete (str (id user)) (cfg st).
Proof.
  rewrite unset_afk_mute_eval. cbv zeta.
  destruct (cfg_contains _ _); simpl; [|discriminate].
  destruct no_vc_ok; [now intros [= <-]|].
  destruct (in_vc env user); simpl; [|discriminate].
  destruct (edit_ok env (id user) false); [now intros [= <-]|discriminate].
Qed.

(** What a successful apply tells about the state before and after. *)
Lemma set_afk_mute_ok env user muter st r st' :
  set_afk_mute env user muter st = (Ok r, st') ->
  cfg_contains (str (id user)) (cfg st) = false /\
  cfg st' = cfg_set (str (id user)) (mkInfo (id user) (id muter)) (cfg st).
Proof.
  rewrite set_afk_mute_eval. cbv zeta.
  destruct (cfg_contains _ _); [discriminate|].
  destruct (in_vc env user); [destruct (edit_ok env (id user) true)|];
    intros [= <- <-]; auto.
Qed.

(** C2: the postcondition of [set_afk_mute] (apply).  With a record already
    present it raises [UserAlreadyAfkMuteError] and changes nothing.  Without
    one, a user outside voice gets the record written with no platform call;
    a user in voice gets exactly one [edit(mute=True)] call, and the record
    is written only if that call succeeds (on failure the error propagates
    and the dictionary is untouched).  Whenever the call succeeds the value
    returned is the record of this user and muter, it is the one stored,
    [is_afk_mute] answers true afterwards, and a second [set_afk_mute] fails
    with [UserAlreadyAfkMuteError] leaving the state as it is. *)
Theorem set_afk_mute_postcondition env user muter st :
  let k := str (id user) in
  let i := mkInfo (id user) (id muter) in
  (cfg_contains k (cfg st) = true ->
     set_afk_mute env user muter st = (Err UserAlreadyAfkMuteError, st)) /\
  (cfg_contains k (cfg st) = false -> in_vc env user = false ->
     set_afk_mute env user muter st =
     (Ok i, mkState (cfg_set k i (cfg st)) (calls st))) /\
  (cfg_contains k (cfg st) = false -> in_vc env user = true ->
     edit_ok env (id user) true = true ->
     set_afk_mute env user muter st =
     (Ok i, mkState (cfg_set k i (cfg st))
                    (calls st ++ [EditMute (id user) true]))) /\
  (cfg_contains k (cfg st) = false -> in_vc env user = true ->
     edit_ok env (id user) true = false ->
     set_afk_mute env user muter st =
     (Err HikariError,
      mkState (cfg st) (calls st ++ [EditMute (id user) true]))) /\
  (forall r st', set_afk_mute env user muter st = (Ok r, st') ->
     r = i /\
     cfg_get k (cfg st') = Some i /\
     fst (is_afk_mute user st') = Ok true /\
     forall muter', set_afk_mute env user muter' st' =
                    (Err UserAlreadyAfkMuteError, st')).
Proof.
  intros k i.
  assert (E := set_afk_mute_eval env user muter st).
  cbv zeta in E. fold k i in E.
  assert (forall r st', set_afk_mute env user muter st = (Ok r, st') ->
            r = i /\ cfg_get k (cfg st') = Some i) as Hok.
  { intros r st'. rewrite E.
    destruct (cfg_contains k (cfg st)); [discriminate|].
    destruct (in_vc env user); [destruct (edit_ok env (id user) true)|];
      intros [= <- <-]; simpl; split; auto using cfg_get_set_same. }
  repeat split.
  - intros H. now rewrite E, H.
  - intros H1 H2. now rewrite E, H1, H2.
  - intros H1 H2 H3. now rewrite E, H1, H2, H3.
  - intros H1 H2 H3. now rewrite E, H1, H2, H3.
  - apply (Hok r st' H).
  - apply (Hok r st' H).
  - rewrite is_afk_mute_eval; simpl. fold k. unfold cfg_contains.
    now destruct (Hok r st' H) as [_ ->].
  - intros muter'. rewrite set_afk_mute_eval. cbv zeta. fold k.
    unfold cfg_contains. now destruct (Hok r st' H) as [_ ->].
Qed.

(** The four outcomes of [set_afk_mute] on concrete states, and the stored
    record after the successful one. *)
Lemma set_afk_mute_postcondition_witness :
  set_afk_mute env_empty_voice alice bob st_alice_muted
    = (Err UserAlreadyAfkMuteError, st_alice_muted) /\
  set_afk_mute env_empty_voice alice bob st_empty
    = (Ok (mkInfo 1 2), mkState [("1", mkInfo 1 2)] []) /\
  set_afk_mute env_alice_in_voice alice bob st_empty
    = (Ok (mkInfo 1 2), mkState [("1", mkInfo 1 2)] [EditMute 1 true]) /\
  set_afk_mute env_edit_refused alice bob st_empty
    = (Err HikariError, mkState [] [EditMute 1 true]) /\
  cfg_get "1" (cfg st_alice_muted) = Some (mkInfo 1 2).
Proof.
  destruct (set_afk_mute_postcondition env_empty_voice alice bob st_alice_muted)
    as (H1 & _).
  destruct (set_afk_mute_postcondition env_empty_voice alice bob st_empty)
    as (_ & H2 & _ & _ & H5).
  destruct (set_afk_mute_postcondition env_alice_in_voice alice bob st_empty)
    as (_ & _ & H3 & _).
  destruct (set_afk_mute_postcondition env_edit_refused alice bob st_empty)
    as (_ & _ & _ & H4 & _).
  split; [|split; [|split; [|split]]].
  - apply H1; reflexivity.
  - apply H2; reflexivity.
  - apply H3; reflexivity.
  - apply H4; reflexivity.
  - apply (H5 (mkInfo 1 2) st_alice_muted). reflexivity.
Defined.

(** C3, as stated, fails: user 1 has a record and a live voice presence, and
    [unset_afk_mute] is called with [no_vc_ok=True].  The record is deleted
    but no [edit(mute=False)] call is issued. *)
Lemma unset_afk_mute_no_vc_ok_counterexample :
  cfg_contains (str (id alice)) (cfg st_alice_muted) = true /\
  in_vc env_alice_in_voice alice = true /\
  unset_afk_mute env_alice_in_voice alice true st_alice_muted
    = (Ok tt, mkState [] []) /\
  ~ In (EditMute (id alice) false)
       (calls (snd (unset_afk_mute env_alice_in_voice alice true st_alice_muted))).
Proof.
  repeat split. simpl. tauto.
Qed.

(** C3 (amended): the postcondition of [unset_afk_mute] (clear).  Without a
    record it raises [UserNotAfkMuteError]; with [no_vc_ok] false and no
    voice presence it raises [UserNotInVcError]; both leave the state as it
    is.  Otherwise the unmute call [edit(mute=False)] is issued exactly when
    [no_vc_ok] is false: then the record is deleted if the call succeeds and
    kept if it fails; with [no_vc_ok] true the record is deleted with no
    platform call at all, whether or not the user is in voice.  After a
    successful clear [is_afk_mute] answers false and a second clear raises
    [UserNotAfkMuteError]. *)
Theorem unset_afk_mute_postcondition env user no_vc_ok st :
  let k := str (id user) in
  (cfg_contains k (cfg st) = false ->
     unset_afk_mute env user no_vc_ok st = (Err UserNotAfkMuteError, st)) /\
  (cfg_contains k (cfg st) = true -> no_vc_ok = false ->
     in_vc env user = false ->
     unset_afk_mute env user no_vc_ok st = (Err UserNotInVcError, st)) /\
  (cfg_contains k (cfg st) = true -> no_vc_ok = false ->
     in_vc env user = true -> edit_ok env (id user) false = true ->
     unset_afk_mute env user no_vc_ok st =
     (Ok tt, mkState (cfg_delete k (cfg st))
                     (calls st ++ [EditMute (id user) false]))) /\
  (cfg_contains k (cfg st) = true -> no_vc_ok = false ->
     in_vc env user = true -> edit_ok env (id user) false = false ->
     unset_afk_mute env user no_vc_ok st =
     (Err HikariError,
      mkState (cfg st) (calls st ++ [EditMute (id user) false]))) /\
  (cfg_contains k (cfg st) = true -> no_vc_ok = true ->
     unset_afk_mute env user no_vc_ok st =
     (Ok tt, mkState (cfg_delete k (cfg st)) (calls st))) /\
  (forall st', unset_afk_mute env user no_vc_ok st = (Ok tt, st') ->
     cfg st' = cfg_delete k (cfg st) /\
     fst (is_afk_mute user st') = Ok false /\
     forall b, unset_afk_mute env user b st' = (Err UserNotAfkMuteError, st')).
Proof.
  intros k.
  assert (E := unset_afk_mute_eval env user no_vc_ok st).
  cbv zeta in E. fold k in E.
  assert (forall st', unset_afk_mute env user no_vc_ok st = (Ok tt, st') ->
            cfg st' = cfg_delete k (cfg st)) as Hok.
  { intros st'. rewrite E.
    destruct (cfg_contains k (cfg st)); simpl; [|discriminate].
    destruct no_vc_ok; [now intros [= <-]|].
    destruct (in_vc env user); simpl; [|discriminate].
    destruct (edit_ok env (id user) false); [now intros [= <-]|discriminate]. }
  assert (forall st', unset_afk_mute env user no_vc_ok st = (Ok tt, st') ->
            cfg_contains k (cfg st') = false) as Hgone.
  { intros st' H. rewrite (Hok st' H). unfold cfg_contains.
    now rewrite cfg_get_delete_same. }
  repeat split.
  - intros H. now rewrite E, H.
  - intros H1 H2 H3. now rewrite E, H1, H2, H3.
  - intros H1 H2 H3 H4. now rewrite E, H1, H2, H3, H4.
  - intros H1 H2 H3 H4. now rewrite E, H1, H2, H3, H4.
  - intros H1 H2. now rewrite E, H1, H2.
  - apply (Hok st' H).
  - rewrite is_afk_mute_eval; simpl. fold k. now rewrite (Hgone st' H).
  - intros b. rewrite unset_afk_mute_eval. cbv zeta. fold k.
    now rewrite (Hgone st' H).
Qed.

(** The five outcomes of [unset_afk_mute] on concrete states. *)
Lemma unset_afk_mute_postcondition_witness :
  unset_afk_mute env_empty_voice alice false st_empty
    = (Err UserNotAfkMuteError, st_empty) /\
  unset_afk_mute env_empty_voice alice false st_alice_muted
    = (Err UserNotInVcError, st_alice_muted) /\
  unset_afk_mute env_alice_in_voice alice false st_alice_muted
    = (Ok tt, mkState [] [EditMute 1 false]) /\
  unset_afk_mute env_edit_refused alice false st_alice_muted
    = (Err HikariError, mkState [("1", mkInfo 1 2)] [EditMute 1 false]) /\
  unset_afk_mute env_alice_in_voice alice true st_alice_muted
    = (Ok tt, mkState [] []) /\
  fst (is_afk_mute alice st_empty) = Ok false.
Proof.
  destruct (unset_afk_mute_postcondition env_empty_voice alice false st_empty)
    as (H1 & _).
  destruct (unset_afk_mute_postcondition env_empty_voice alice false
              st_alice_muted) as (_ & H2 & _).
  destruct (unset_afk_mute_postcondition env_alice_in_voice alice false
              st_alice_muted) as (_ & _ & H3 & _).
  destruct (unset_afk_mute_postcondition env_edit_refused alice false
              st_alice_muted) as (_ & _ & _ & H4 & _).
  destruct (unset_afk_mute_postcondition env_alice_in_voice alice true
              st_alice_muted) as (_ & _ & _ & _ & H5 & H6).
  split; [|split; [|split; [|split; [|split]]]].
  - apply H1; reflexivity.
  - apply H2; reflexivity.
  - apply H3; reflexivity.
  - apply H4; reflexivity.
  - apply H5; reflexivity.
  - apply (H6 st_empty). reflexivity.
Defined.

(** ** Sequences of registry operations *)

Lemma contains_iff_record_exists c user :
  well_keyed c ->
  cfg_contains (str (id user)) c = true <-> record_exists c user.
Proof.
  intros WK. unfold well_keyed in WK. rewrite Forall_forall in WK.
  rewrite cfg_contains_In. unfold cfg_keys, cfg_values, record_exists. split.
  - intros H. apply in_map_iff in H as [[k r] [E Hin]]. simpl in E.
    exists r. split.
    + apply in_map_iff. exists (k, r). auto.
    + apply str_inj. rewrite <- E. symmetry. exact (WK _ Hin).
  - intros [r [Hin E]]. apply in_map_iff in Hin as [[k r'] [E' Hin]].
    simpl in E'. subst r'. apply in_map_iff. exists (k, r). split; auto.
    simpl. rewrite <- E. exact (WK _ Hin).
Qed.

Lemma set_afk_mute_cfg env user muter st :
  cfg (snd (set_afk_mute env user muter st)) = cfg st \/
  cfg_contains (str (id user)) (cfg st) = false /\
  cfg (snd (set_afk_mute env user muter st)) =
    cfg_set (str (id user)) (mkInfo (id user) (id muter)) (cfg st).
Proof.
  rewrite set_afk_mute_eval. cbv zeta.
  destruct (cfg_contains _ _); auto.
  destruct (in_vc env user); [destruct (edit_ok env (id user) true)|]; auto.
Qed.

Lemma unset_afk_mute_cfg env user no_vc_ok st :
  cfg (snd (unset_afk_mute env user no_vc_ok st)) = cfg st \/
  cfg (snd (unset_afk_mute env user no_vc_ok st)) =
    cfg_delete (str (id user)) (cfg st).
Proof.
  rewrite unset_afk_mute_eval. cbv zeta.
  destruct (cfg_contains _ _); simpl; auto.
  destruct no_vc_ok; auto.
  destruct (in_vc env user); simpl; auto.
  destruct (edit_ok env (id user) false); auto.
Qed.

Lemma run_op_well_formed env op st :
  well_formed (cfg st) -> well_formed (cfg (run_op env op st)).
Proof.
  intros WF. destruct op as [user muter | user no_vc_ok]; simpl.
  - destruct (set_afk_mute_cfg env user muter st) as [-> | [H ->]]; auto.
    now apply well_formed_set.
  - destruct (unset_afk_mute_cfg env user no_vc_ok st) as [-> | ->]; auto.
    now apply well_formed_delete.
Qed.

Lemma run_ops_well_formed env ops st :
  well_formed (cfg st) -> well_formed (cfg (run_ops env ops st)).
Proof.
  unfold run_ops. revert st.
  induction ops as [|op ops IH]; simpl; intros st WF; auto.
  apply IH, run_op_well_formed, WF.
Qed.

(** C1: the registry membership invariant.  Start from a well-formed
    registry (one entry per key, each stored under [str] of its own
    [user_id]; the empty registry is one) and run any sequence of apply and
    clear calls, successful or not.  The registry is again well formed, and
    for every user [is_afk_mute] returns without touching the state and
    answers true exactly when a stored record is about that user.  Apply on
    a user with a record fails and changes nothing; on a user without one
    it succeeds whenever the user is outside voice or the platform accepts
    the mute call, and then appends exactly the record of that user, which
    makes the answer true and changes it for no other user.  Clear on a
    user without a record fails and changes nothing; on a user with one it
    succeeds whenever [no_vc_ok] is set or the user is in voice and the
    platform accepts the unmute call, and then removes exactly the entries
    about that user, which makes the answer false. *)
Theorem registry_membership_invariant env ops st :
  well_formed (cfg st) ->
  let st' := run_ops env ops st in
  well_formed (cfg st') /\
  forall user,
    (exists b, is_afk_mute user st' = (Ok b, st') /\
               (b = true <-> record_exists (cfg st') user)) /\
    (forall muter,
       (record_exists (cfg st') user ->
        set_afk_mute env user muter st'
          = (Err UserAlreadyAfkMuteError, st')) /\
       (~ record_exists (cfg st') user ->
        in_vc env user = false \/ edit_ok env (id user) true = true ->
        exists st'',
          set_afk_mute env user muter st'
            = (Ok (mkInfo (id user) (id muter)), st'') /\
          cfg st''
            = cfg st' ++ [(str (id user), mkInfo (id user) (id muter))] /\
          record_exists (cfg st'') user) /\
       (forall r st'',
          set_afk_mute env user muter st' = (Ok r, st'') ->
          ~ record_exists (cfg st') user /\
          cfg st''
            = cfg st' ++ [(str (id user), mkInfo (id user) (id muter))] /\
          record_exists (cfg st'') user /\
          forall other, id other <> id user ->
            (record_exists (cfg st'') other <->
             record_exists (cfg st') other))) /\
    (forall no_vc_ok,
       (~ record_exists (cfg st') user ->
        unset_afk_mute env user no_vc_ok st'
          = (Err UserNotAfkMuteError, st')) /\
       (record_exists (cfg st') user ->
        no_vc_ok = true \/
        in_vc env user = true /\ edit_ok env (id user) false = true ->
        exists st'',
          unset_afk_mute env user no_vc_ok st' = (Ok tt, st'') /\
          cfg st'' = cfg_delete (str (id user)) (cfg st') /\
          ~ record_exists (cfg st'') user) /\
       (forall st'',
          unset_afk_mute env user no_vc_ok st' = (Ok tt, st'') ->
          record_exists (cfg st') user /\
          ~ record_exists (cfg st'') user /\
          forall kv, In kv (cfg st'') <->
                     In kv (cfg st') /\ user_id (snd kv) <> id user)).
Proof.
  intros WF0 st'.
  assert (WF : well_formed (cfg st')) by now apply run_ops_well_formed.
  clearbody st'. clear WF0 st ops.
  split; [exact WF|]. intros user.
  pose proof (contains_iff_record_exists (cfg st') user (proj2 WF)) as Hiff.
  assert (Hset : forall muter st'',
            cfg st'' = cfg_set (str (id user)) (mkInfo (id user) (id muter))
                               (cfg st') ->
            cfg_contains (str (id user)) (cfg st') = false ->
            cfg st''
              = cfg st' ++ [(str (id user), mkInfo (id user) (id muter))] /\
            record_exists (cfg st'') user /\
            forall other, id other <> id user ->
              (record_exists (cfg st'') other <->
               record_exists (cfg st') other)).
  { intros muter st'' Hcfg Hc.
    assert (WF'' : well_formed (cfg st'')).
    { rewrite Hcfg. now apply well_formed_set. }
    split; [|split].
    - rewrite Hcfg. now apply cfg_set_absent.
    - apply (contains_iff_record_exists _ _ (proj2 WF'')).
      rewrite Hcfg. unfold cfg_contains. now rewrite cfg_get_set_same.
    - intros other Hne.
      rewrite <- (contains_iff_record_exists _ _ (proj2 WF'')).
      rewrite <- (contains_iff_record_exists _ _ (proj2 WF)).
      rewrite Hcfg. unfold cfg_contains.
      rewrite cfg_get_set_other; [reflexivity|].
      intros E. apply Hne. now apply str_inj. }
  assert (Hdel : forall st'',
            cfg st'' = cfg_delete (str (id user)) (cfg st') ->
            ~ record_exists (cfg st'') user /\
            forall kv, In kv (cfg st'') <->
                       In kv (cfg st') /\ user_id (snd kv) <> id user).
  { intros st'' Hcfg.
    assert (WF'' : well_formed (cfg st'')).
    { rewrite Hcfg. now apply well_formed_delete. }
    split.
    - rewrite <- (contains_iff_record_exists _ _ (proj2 WF'')).
      rewrite Hcfg. unfold cfg_contains. rewrite cfg_get_delete_same.
      discriminate.
    - intros kv. rewrite Hcfg, cfg_delete_In.
      destruct WF as [_ WK]. unfold well_keyed in WK.
      rewrite Forall_forall in WK. split.
      + intros [Hin Hk]. split; auto. intros E. apply Hk.
        rewrite (WK _ Hin). now rewrite E.
      + intros [Hin Hu]. split; auto. intros E. apply Hu.
        apply str_inj. rewrite <- (WK _ Hin). exact E. }
  split; [|split].
  - exists (cfg_contains (str (id user)) (cfg st')). split; auto.
  - intros muter. split; [|split].
    + intros Hrec. apply Hiff in Hrec.
      rewrite set_afk_mute_eval. cbv zeta. now rewrite Hrec.
    + intros Hno Hcan.
      assert (Hc : cfg_contains (str (id user)) (cfg st') = false).
      { destruct (cfg_contains _ _) eqn:E; auto.
        exfalso. apply Hno, Hiff. reflexivity. }
      rewrite set_afk_mute_eval. cbv zeta. rewrite Hc.
      destruct (in_vc env user) eqn:Ev.
      * destruct Hcan as [Hcan | ->]; [discriminate|].
        eexists. split; [reflexivity|].
        destruct (Hset muter
                    (mkState (cfg_set (str (id user))
                                (mkInfo (id user) (id muter)) (cfg st'))
                             (calls st' ++ [EditMute (id user) true]))
                    eq_refl Hc) as (H1 & H2 & _).
        split; assumption.
      * eexists. split; [reflexivity|].
        destruct (Hset muter
                    (mkState (cfg_set (str (id user))
                                (mkInfo (id user) (id muter)) (cfg st'))
                             (calls st'))
                    eq_refl Hc) as (H1 & H2 & _).
        split; assumption.
    + intros r st'' H.
      destruct (set_afk_mute_ok env user muter st' r st'' H) as [Hc Hcfg].
      split.
      * rewrite <- Hiff, Hc. discriminate.
      * exact (Hset muter st'' Hcfg Hc).
  - intros no_vc_ok. split; [|split].
    + intros Hno.
      assert (Hc : cfg_contains (str (id user)) (cfg st') = false).
      { destruct (cfg_contains _ _) eqn:E; auto.
        exfalso. apply Hno, Hiff. reflexivity. }
      rewrite unset_afk_mute_eval. cbv zeta. now rewrite Hc.
    + intros Hrec Hcan. apply Hiff in Hrec.
      rewrite unset_afk_mute_eval. cbv zeta. rewrite Hrec. simpl.
      destruct Hcan as [-> | [Hv He]].
      * eexists. split; [reflexivity|]. split; [reflexivity|].
        apply (Hdel (mkState (cfg_delete (str (id user)) (cfg st'))
                             (calls st')) eq_refl).
      * destruct no_vc_ok.
        -- eexists. split; [reflexivity|]. split; [reflexivity|].
           apply (Hdel (mkState (cfg_delete (str (id user)) (cfg st'))
                                (calls st')) eq_refl).
        -- rewrite Hv, He. simpl.
           eexists. split; [reflexivity|]. split; [reflexivity|].
           apply (Hdel (mkState (cfg_delete (str (id user)) (cfg st'))
                                (calls st' ++ [EditMute (id user) false]))
                       eq_refl).
    + intros st'' H.
      destruct (unset_afk_mute_ok env user no_vc_ok st' st'' H) as (Hc & Hcfg).
      split; [apply Hiff; exact Hc|]. exact (Hdel st'' Hcfg).
Qed.

(** From the empty registry: three calls keep the invariant; an apply for
    user 1 succeeds and stores exactly that record; a clear for user 1 on
    the registry the apply left succeeds and leaves no record of user 1. *)
Lemma registry_membership_invariant_witness :
  well_formed
    (cfg (run_ops env_alice_in_voice
            [Apply alice bob; Clear alice false; Apply bob alice] st_empty)) /\
  (exists st'',
     set_afk_mute env_alice_in_voice alice bob st_empty
       = (Ok (mkInfo 1 2), st'') /\
     cfg st'' = [("1", mkInfo 1 2)] /\
     record_exists (cfg st'') alice) /\
  (exists st'',
     unset_afk_mute env_alice_in_voice alice false
       (run_ops env_alice_in_voice [Apply alice bob] st_empty)
       = (Ok tt, st'') /\
     cfg st'' = [] /\
     ~ record_exists (cfg st'') alice).
Proof.
  destruct (registry_membership_invariant env_alice_in_voice
              [Apply alice bob; Clear alice false; Apply bob alice] st_empty
              well_formed_nil) as [H1 _].
  destruct (registry_membership_invariant env_alice_in_voice [] st_empty
              well_formed_nil) as [_ H2].
  destruct (H2 alice) as (_ & Happly & _).
  destruct (Happly bob) as (_ & Hadd & _).
  destruct (registry_membership_invariant env_alice_in_voice
              [Apply alice bob] st_empty well_formed_nil) as [_ H3].
  destruct (H3 alice) as (_ & _ & Hclear).
  destruct (Hclear false) as (_ & Hdel & _).
  split; [exact H1|]. split.
  - apply Hadd.
    + intros [r [[] _]].
    + right. reflexivity.
  - apply Hdel.
    + exists (mkInfo 1 2). split; [left|]; reflexivity.
    + right. split; reflexivity.
Defined.

Example run_ops_example :
  run_ops env_alice_in_voice
    [Apply alice bob; Clear alice false; Apply bob alice] st_empty
  = mkState [("2", mkInfo 2 1)] [EditMute 1 true; EditMute 1 false].
Proof. reflexivity. Qed.

(** ** The voice-state listener, case by case *)

Lemma edit_eval env user mute st :
  edit env user mute st =
  (if edit_ok env (id user) mute then Ok tt else Err HikariError,
   mkState (cfg st) (calls st ++ [EditMute (id user) mute])).
Proof.
  unfold edit, bind, log_call, ret, raise; simpl.
  destruct (edit_ok env (id user) mute); reflexivity.
Qed.

Lemma status_loop_eval env old cur statuses st :
  status_loop env old cur statuses st =
  if existsb (fun status => negb (Bool.eqb (status old) (status cur))) statuses
  then unset_afk_mute env (member cur) false st
  else (Ok tt, st).
Proof.
  induction statuses as [|status rest IH]; simpl; [reflexivity|].
  destruct (negb (Bool.eqb (status old) (status cur))); simpl; auto.
Qed.

Lemma on_voice_state_update_eval env event st :
  on_voice_state_update env event st =
  let m := member (state event) in
  let muted := cfg_contains (str (id m)) (cfg st) in
  match old_state event with
  | Some old =>
      if is_guild_muted old && negb (is_guild_muted (state event)) && muted
      then unset_afk_mute env m false st
      else if status_changed old (state event)
           then unset_afk_mute env m false st
           else (Ok tt, st)
  | None =>
      match channel_id (state event) with
      | Some _ =>
          if muted && negb (is_guild_muted (state event))
          then edit env m true st
          else (Ok tt, st)
      | None => (Ok tt, st)
      end
  end.
Proof.
  unfold on_voice_state_update, status_changed. cbv zeta.
  destruct (old_state event) as [old|].
  - unfold bind at 1.
    destruct (is_guild_muted old && negb (is_guild_muted (state event)));
      cbn [and_then andb].
    + rewrite is_afk_mute_eval.
      destruct (cfg_contains _ _); [reflexivity|].
      cbn -[status_loop unset_afk_mute]. apply status_loop_eval.
    + cbn -[status_loop unset_afk_mute]. apply status_loop_eval.
  - unfold bind at 1. cbn [and_then]. unfold ret at 1.
    destruct (channel_id (state event)) as [c|]; [|reflexivity].
    unfold bind at 1. cbn [and_then]. unfold bind at 1.
    rewrite is_afk_mute_eval. unfold ret at 1.
    destruct (cfg_contains _ _ && negb _); cbn [when].
    + unfold bind. rewrite edit_eval.
      destruct (edit_ok env _ true); reflexivity.
    + reflexivity.
Qed.

(** The decoded state of a voice event together with whether any of the
    four user-controlled flags changed. *)
Lemma status_changed_iff old cur :
  status_changed old cur = true <->
  is_self_deafened old <> is_self_deafened cur \/
  is_self_muted old <> is_self_muted cur \/
  is_streaming old <> is_streaming cur \/
  is_video_enabled old <> is_video_enabled cur.
Proof.
  unfold status_changed, user_status; simpl.
  destruct (is_self_deafened old), (is_self_deafened cur),
           (is_self_muted old), (is_self_muted cur),
           (is_streaming old), (is_streaming cur),
           (is_video_enabled old), (is_video_enabled cur); simpl;
    split; intros H; try reflexivity; try discriminate;
    try (intuition congruence); auto.
Qed.

(** C5: reconciliation rule 1 (administrator-cleared mute).  When the event
    carries a previous snapshot that was guild-muted, the current snapshot is
    not guild-muted, and the user has a record, the listener is exactly one
    call [unset_afk_mute(member)] with [no_vc_ok] false, after which it
    returns: whatever the four status flags are, no second clear and no
    [edit(mute=True)] is issued, so at most one platform call is added and
    it is the unmute. *)
Theorem rule1_admin_cleared_mute env event old st :
  old_state event = Some old ->
  is_guild_muted old = true ->
  is_guild_muted (state event) = false ->
  cfg_contains (str (id (member (state event)))) (cfg st) = true ->
  on_voice_state_update env event st
    = unset_afk_mute env (member (state event)) false st /\
  (calls (snd (on_voice_state_update env event st)) = calls st \/
   calls (snd (on_voice_state_update env event st))
     = calls st ++ [EditMute (id (member (state event))) false]).
Proof.
  intros Hold Hm Hc Hrec.
  assert (E : on_voice_state_update env event st
              = unset_afk_mute env (member (state event)) false st).
  { rewrite on_voice_state_update_eval. cbv zeta.
    now rewrite Hold, Hm, Hc, Hrec. }
  split; [exact E|]. rewrite E, unset_afk_mute_eval. cbv zeta.
  rewrite Hrec; simpl.
  destruct (in_vc env (member (state event))); simpl; auto.
  destruct (edit_ok env _ false); simpl; auto.
Qed.

(** Rule 1 on an event that also changes the self-deafen flag: one unmute,
    record gone. *)
Lemma rule1_admin_cleared_mute_witness :
  on_voice_state_update env_alice_in_voice ev_admin_unmuted st_alice_muted
    = (Ok tt, mkState [] [EditMute 1 false]).
Proof.
  destruct (rule1_admin_cleared_mute env_alice_in_voice ev_admin_unmuted
              (voice_of 1 true) st_alice_muted
              eq_refl eq_refl eq_refl eq_refl) as [E _].
  rewrite E. reflexivity.
Defined.

(** Rule 3 as the code has it: with a previous snapshot, a change of any of
    the four flags makes the listener call [unset_afk_mute(member)] once,
    whether or not rule 1 fired first and whether or not a record exists. *)
Lemma rule3_status_change_clears env event old st :
  old_state event = Some old ->
  status_changed old (state event) = true ->
  on_voice_state_update env event st
    = unset_afk_mute env (member (state event)) false st.
Proof.
  intros Hold Hch. rewrite on_voice_state_update_eval. cbv zeta.
  rewrite Hold, Hch. now destruct (_ && _).
Qed.

(** With a previous snapshot, the same guild-mute bit and the same four
    flags, the listener does nothing, whatever happened to [channel_id]. *)
Lemma rule3_channel_change_alone_ignored env event old st :
  old_state event = Some old ->
  is_guild_muted old = is_guild_muted (state event) ->
  status_changed old (state event) = false ->
  on_voice_state_update env event st = (Ok tt, st).
Proof.
  intros Hold Hg Hch. rewrite on_voice_state_update_eval. cbv zeta.
  rewrite Hold, Hch, Hg. now destruct (is_guild_muted (state event)).
Qed.

(** Without a record no rule's condition holds; the listener still reaches
    [unset_afk_mute] when a flag changed, and only then raises. *)
Lemma rule3_without_record env event old st :
  old_state event = Some old ->
  cfg_contains (str (id (member (state event)))) (cfg st) = false ->
  on_voice_state_update env event st =
  if status_changed old (state event)
  then (Err UserNotAfkMuteError, st) else (Ok tt, st).
Proof.
  intros Hold Hrec. rewrite on_voice_state_update_eval. cbv zeta.
  rewrite Hold, Hrec, andb_false_r, unset_afk_mute_eval. cbv zeta.
  now rewrite Hrec.
Qed.

Example channel_move_keeps_record :
  on_voice_state_update env_alice_in_voice ev_channel_move st_alice_muted
    = (Ok tt, st_alice_muted).
Proof. reflexivity. Qed.

Example self_mute_clears_record :
  on_voice_state_update env_alice_in_voice ev_self_mute_on st_alice_muted
    = (Ok tt, mkState [] [EditMute 1 false]).
Proof. reflexivity. Qed.

(** C6: reconciliation rule 3.  The claim ends with: when no rule's
    condition holds, in particular for a user who is not AFK-muted, the
    event leads to no action and no error.  The loop over [user_status]
    calls [unset_afk_mute] without the [is_afk_mute] test that rules 1 and 2
    make.  So for every event with a previous snapshot in which one of the
    four flags changed, for a user with no record, the listener raises
    [UserNotAfkMuteError]; the registry and the call log stay as they
    were. *)
Theorem rule3_unmuted_user_raises env event old st :
  old_state event = Some old ->
  status_changed old (state event) = true ->
  cfg_contains (str (id (member (state event)))) (cfg st) = false ->
  on_voice_state_update env event st = (Err UserNotAfkMuteError, st).
Proof.
  intros Hold Hch Hrec.
  rewrite (rule3_without_record env event old st Hold Hrec).
  now rewrite Hch.
Qed.

(** User 1, never AFK-muted, turns self-mute on: the listener raises. *)
Lemma rule3_unmuted_user_raises_witness :
  on_voice_state_update env_alice_in_voice ev_self_mute_on st_empty
    = (Err UserNotAfkMuteError, st_empty).
Proof.
  apply (rule3_unmuted_user_raises env_alice_in_voice ev_self_mute_on
           (voice_of 1 false) st_empty); reflexivity.
Defined.

(** C7, as stated, fails: the event has no previous snapshot, user 1 has a
    record and the current snapshot is not guild-muted, but it names no
    channel.  The listener issues no [edit(mute=True)]. *)
Lemma rule2_no_channel_counterexample :
  old_state ev_no_channel = None /\
  cfg_contains (str (id (member (state ev_no_channel)))) (cfg st_alice_muted)
    = true /\
  is_guild_muted (state ev_no_channel) = false /\
  on_voice_state_update env_alice_in_voice ev_no_channel st_alice_muted
    = (Ok tt, st_alice_muted) /\
  calls (snd (on_voice_state_update env_alice_in_voice ev_no_channel
                st_alice_muted)) = [].
Proof. repeat split. Qed.

(** C7 (amended): reconciliation rule 2 (join-while-muted).  When the event
    has no previous snapshot, the current snapshot names a channel and is
    not guild-muted, and the user has a record, the listener is exactly one
    [edit(mute=True)] call on the member: [set_afk_mute] is not involved, the
    registry is left as it is (the record is neither replaced nor
    duplicated), and the only error that can come out is that of the edit
    call itself, never [UserAlreadyAfkMuteError]. *)
Theorem rule2_join_while_muted env event ch st :
  old_state event = None ->
  channel_id (state event) = Some ch ->
  is_guild_muted (state event) = false ->
  cfg_contains (str (id (member (state event)))) (cfg st) = true ->
  on_voice_state_update env event st = edit env (member (state event)) true st /\
  cfg (snd (on_voice_state_update env event st)) = cfg st /\
  calls (snd (on_voice_state_update env event st))
    = calls st ++ [EditMute (id (member (state event))) true] /\
  fst (on_voice_state_update env event st) <> Err UserAlreadyAfkMuteError.
Proof.
  intros Hold Hch Hg Hrec.
  assert (E : on_voice_state_update env event st
              = edit env (member (state event)) true st).
  { rewrite on_voice_state_update_eval. cbv zeta.
    now rewrite Hold, Hch, Hg, Hrec. }
  rewrite E, edit_eval. simpl. repeat split.
  destruct (edit_ok env _ true); discriminate.
Qed.

(** User 1 joins a channel while holding a record: one mute call, record
    kept. *)
Lemma rule2_join_while_muted_witness :
  on_voice_state_update env_alice_in_voice ev_join st_alice_muted
    = (Ok tt, mkState [("1", mkInfo 1 2)] [EditMute 1 true]).
Proof.
  destruct (rule2_join_while_muted env_alice_in_voice ev_join 100
              st_alice_muted eq_refl eq_refl eq_refl eq_refl) as [E _].
  rewrite E. reflexivity.
Defined.

(** ** The message and reaction listener *)

Lemma on_member_message_action_eval env event st :
  on_member_message_action env event st =
  match acting_member env event with
  | None => (Err AttributeError, st)
  | Some m =>
      if cfg_contains (str (id m)) (cfg st)
      then try_except_UserNotInVcError (unset_afk_mute env m false) st
      else (Ok tt, st)
  end.
Proof.
  unfold on_member_message_action, acting_member.
  destruct event as [[m|] | [m|] | uid]; try reflexivity;
    try (unfold bind at 1; rewrite is_afk_mute_eval;
         destruct (cfg_contains _ _); reflexivity).
  destruct (cache_get_member env uid) as [m|]; [|reflexivity].
  unfold bind at 1. rewrite is_afk_mute_eval.
  destruct (cfg_contains _ _); reflexivity.
Qed.

(** C4, as stated, fails: user 1 has a record, is not in voice, and posts a
    message.  The listener calls [unset_afk_mute(member)] with the default
    [no_vc_ok=False]; [UserNotInVcError] is raised and swallowed, and the
    record is still there afterwards. *)
Lemma message_outside_voice_counterexample :
  in_vc env_empty_voice alice = false /\
  on_member_message_action env_empty_voice
    (GuildMessageCreateEvent (Some alice)) st_alice_muted
    = (Ok tt, st_alice_muted) /\
  fst (is_afk_mute alice
         (snd (on_member_message_action env_empty_voice
                 (GuildMessageCreateEvent (Some alice)) st_alice_muted)))
    = Ok true.
Proof. repeat split. Qed.

(** C4 (amended): for a message post, message edit or reaction for which
    the listener obtains the acting member ([event.member], or the cached
    member of the reacting user) and that member has a record, the listener
    attempts [unset_afk_mute(member)] with [no_vc_ok] false inside a handler
    for [UserNotInVcError].  That error never leaves the listener.  For a
    member outside voice it is raised and swallowed: the listener returns
    normally, the record stays and no platform call is issued.  For a member
    in voice the listener is the clear itself: one [edit(mute=False)] call,
    and the record is deleted when that call succeeds.  (When the event
    yields no member the listener raises [AttributeError] before any of
    this and touches nothing.) *)
Theorem message_action_clears_in_voice env event st :
  (acting_member env event = None ->
   on_member_message_action env event st = (Err AttributeError, st)) /\
  (forall m,
     acting_member env event = Some m ->
     cfg_contains (str (id m)) (cfg st) = true ->
     on_member_message_action env event st
       = try_except_UserNotInVcError (unset_afk_mute env m false) st /\
     fst (on_member_message_action env event st) <> Err UserNotInVcError /\
     (in_vc env m = false ->
        on_member_message_action env event st = (Ok tt, st)) /\
     (in_vc env m = true ->
        on_member_message_action env event st
          = unset_afk_mute env m false st /\
        calls (snd (on_member_message_action env event st))
          = calls st ++ [EditMute (id m) false] /\
        (edit_ok env (id m) false = true ->
           on_member_message_action env event st =
           (Ok tt, mkState (cfg_delete (str (id m)) (cfg st))
                           (calls st ++ [EditMute (id m) false]))))).
Proof.
  split.
  - intros Hm. rewrite on_member_message_action_eval. now rewrite Hm.
  - intros m Hm Hrec.
    assert (E : on_member_message_action env event st
                = try_except_UserNotInVcError (unset_afk_mute env m false) st).
    { rewrite on_member_message_action_eval. now rewrite Hm, Hrec. }
    rewrite E. unfold try_except_UserNotInVcError.
    rewrite unset_afk_mute_eval. cbv zeta. rewrite Hrec. simpl.
    destruct (in_vc env m); simpl.
    + destruct (edit_ok env (id m) false); simpl; repeat split;
        try discriminate.
    + repeat split; try discriminate.
Qed.

(** User 1, in voice and with a record, adds a reaction; user 1, outside
    voice and with a record, edits a message. *)
Lemma message_action_clears_in_voice_witness :
  on_member_message_action env_alice_in_voice (GuildReactionEvent 1)
    st_alice_muted
  = (Ok tt, mkState [] [EditMute 1 false]) /\
  on_member_message_action env_empty_voice
    (GuildMessageUpdateEvent (Some alice)) st_alice_muted
  = (Ok tt, st_alice_muted).
Proof.
  destruct (message_action_clears_in_voice env_alice_in_voice
              (GuildReactionEvent 1) st_alice_muted) as (_ & H).
  destruct (H alice eq_refl eq_refl) as (_ & _ & _ & Hin).
  destruct (Hin eq_refl) as (_ & _ & H3).
  destruct (message_action_clears_in_voice env_empty_voice
              (GuildMessageUpdateEvent (Some alice)) st_alice_muted)
    as (_ & G).
  destruct (G alice eq_refl eq_refl) as (_ & _ & Hout & _).
  split.
  - apply H3. reflexivity.
  - apply Hout. reflexivity.
Defined.

(** ** The start-up sweep *)

(** One iteration of the loop. *)
Lemma fetch_loop_cons env info rest st :
  fetch_loop env (info :: rest) st =
  let uid := user_id info in
  if fetch_member_ok env uid then
    if drifted env uid then
      if cfg_contains (str uid) (cfg st)
      then fetch_loop env rest
             (mkState (cfg_delete (str uid) (cfg st))
                      (calls st ++ [FetchMember uid]))
      else (Err UserNotAfkMuteError, log_fetch uid st)
    else fetch_loop env rest (log_fetch uid st)
  else (Err HikariError, log_fetch uid st).
Proof.
  cbv zeta. cbn [fetch_loop]. unfold bind at 1. unfold fetch_member.
  unfold bind at 1. unfold log_call at 1.
  unfold drifted, log_fetch.
  destruct (fetch_member_ok env (user_id info)); [|reflexivity].
  unfold ret at 1. cbn [id].
  destruct (get_voice_state env (user_id info)) as [vs|].
  - destruct (is_guild_muted vs); cbn [negb when].
    + reflexivity.
    + unfold bind at 1. rewrite unset_afk_mute_eval. cbv zeta. cbn [id cfg calls].
      destruct (cfg_contains _ _); reflexivity.
  - reflexivity.
Qed.

Lemma fetch_loop_nil env st : fetch_loop env [] st = (Ok tt, st).
Proof. reflexivity. Qed.

Lemma swept_idempotent env l : swept env (swept env l) = swept env l.
Proof.
  induction l as [|[k r] l IH]; simpl; auto.
  destruct (fetch_member_ok env (user_id r)) eqn:Ef.
  - destruct (drifted env (user_id r)) eqn:Ed; auto.
    simpl. now rewrite Ef, Ed, IH.
  - simpl. now rewrite Ef.
Qed.

Lemma swept_all_fetched env l :
  forallb (fun r => fetch_member_ok env (user_id r)) (cfg_values l) = true ->
  swept env l = filter (fun kv => negb (drifted env (user_id (snd kv)))) l.
Proof.
  induction l as [|[k r] l IH]; simpl; auto.
  intros H. apply andb_true_iff in H as [-> H].
  destruct (drifted env (user_id r)); simpl; now rewrite IH.
Qed.

Lemma cfg_delete_app k c1 c2 :
  cfg_delete k (c1 ++ c2) = cfg_delete k c1 ++ cfg_delete k c2.
Proof. rewrite !cfg_delete_filter. apply filter_app. Qed.

(** In a dictionary, deleting the key of an entry removes that entry only. *)
Lemma cfg_delete_middle k r pre l :
  NoDup (cfg_keys (pre ++ (k, r) :: l)) ->
  cfg_delete k (pre ++ (k, r) :: l) = pre ++ l.
Proof.
  unfold cfg_keys. rewrite map_app. simpl. intros ND.
  apply NoDup_remove_2 in ND.
  rewrite cfg_delete_app. simpl. rewrite String.eqb_refl.
  rewrite !cfg_delete_absent; auto; unfold cfg_keys;
    intros Hin; apply ND, in_or_app; auto.
Qed.

Lemma well_formed_middle k r pre l :
  well_formed (pre ++ (k, r) :: l) ->
  k = str (user_id r) /\ well_formed (pre ++ l) /\
  cfg_contains k (pre ++ (k, r) :: l) = true.
Proof.
  intros WF. split; [|split].
  - destruct WF as [_ WK]. unfold well_keyed in WK.
    rewrite Forall_forall in WK.
    apply (WK (k, r)), in_or_app. right. now left.
  - rewrite <- (cfg_delete_middle k r pre l) by apply WF.
    now apply well_formed_delete.
  - apply cfg_contains_In. unfold cfg_keys. rewrite map_app.
    apply in_or_app. right. now left.
Qed.

Lemma visited_all_fetched env items :
  forallb (fun r => fetch_member_ok env (user_id r)) items = true ->
  visited env items = map user_id items.
Proof.
  induction items as [|info rest IH]; simpl; auto.
  intros H. apply andb_true_iff in H as [-> H]. now rewrite IH.
Qed.

(** The loop on a well-formed registry: [pre] holds the entries already
    visited and kept, [l] the entries still to visit. *)
Lemma fetch_loop_swept env l : forall pre cs,
  well_formed (pre ++ l) ->
  let out := fetch_loop env (cfg_values l) (mkState (pre ++ l) cs) in
  cfg (snd out) = pre ++ swept env l /\
  fst out =
    (if forallb (fun r => fetch_member_ok env (user_id r)) (cfg_values l)
     then Ok tt else Err HikariError) /\
  calls (snd out) = cs ++ map FetchMember (visited env (cfg_values l)).
Proof.
  induction l as [|[k r] l IH]; intros pre cs WF; cbv zeta.
  - simpl. now rewrite !app_nil_r.
  - destruct (well_formed_middle k r pre l WF) as (Hk & WF' & Hc).
    change (cfg_values ((k, r) :: l)) with (r :: cfg_values l).
    rewrite fetch_loop_cons. cbv zeta. cbn [forallb swept visited cfg calls].
    destruct (fetch_member_ok env (user_id r)); simpl andb;
      [|now repeat split].
    destruct (drifted env (user_id r)).
    + rewrite <- Hk, Hc, cfg_delete_middle by apply WF.
      destruct (IH pre (cs ++ [FetchMember (user_id r)]) WF')
        as (H1 & H2 & H3).
      repeat split; auto. rewrite H3. now rewrite <- app_assoc.
    + unfold log_fetch. cbn [cfg calls].
      replace (pre ++ (k, r) :: l) with ((pre ++ [(k, r)]) ++ l) in *
        by now rewrite <- app_assoc.
      destruct (IH (pre ++ [(k, r)]) (cs ++ [FetchMember (user_id r)]) WF)
        as (H1 & H2 & H3).
      repeat split; auto.
      * rewrite H1. now rewrite <- app_assoc.
      * rewrite H3. now rewrite <- app_assoc.
Qed.

Lemma fetch_afk_mute_state_eval env st :
  fetch_afk_mute_state env st = fetch_loop env (cfg_values (cfg st)) st.
Proof. reflexivity. Qed.

Lemma fetch_afk_mute_state_swept env st :
  well_formed (cfg st) ->
  cfg (snd (fetch_afk_mute_state env st)) = swept env (cfg st) /\
  fst (fetch_afk_mute_state env st) =
    (if forallb (fun r => fetch_member_ok env (user_id r))
                (cfg_values (cfg st))
     then Ok tt else Err HikariError) /\
  calls (snd (fetch_afk_mute_state env st))
    = calls st ++ map FetchMember (visited env (cfg_values (cfg st))).
Proof.
  intros WF. rewrite fetch_afk_mute_state_eval.
  destruct st as [c cs]. apply (fetch_loop_swept env c [] cs WF).
Qed.

(** The loop only ever deletes: well-formedness is kept, for any list of
    items and any state. *)
Lemma fetch_loop_well_formed env items : forall st,
  well_formed (cfg st) -> well_formed (cfg (snd (fetch_loop env items st))).
Proof.
  induction items as [|info rest IH]; intros st WF; [exact WF|].
  rewrite fetch_loop_cons. cbv zeta.
  destruct (fetch_member_ok env (user_id info)); [|exact WF].
  destruct (drifted env (user_id info)); [|apply IH; exact WF].
  destruct (cfg_contains _ _); [|exact WF].
  apply IH. now apply well_formed_delete.
Qed.

Lemma run_clear_cfg env uid st :
  cfg (run_op env (Clear (mkMember uid) true) st)
    = cfg_delete (str uid) (cfg st).
Proof.
  simpl. rewrite unset_afk_mute_eval. cbv zeta. cbn [id].
  destruct (cfg_contains (str uid) (cfg st)) eqn:E; simpl; auto.
  symmetry. apply cfg_delete_absent. now apply cfg_contains_false.
Qed.

Lemma run_clears_cfg env uids : forall st,
  cfg (run_ops env (map (fun uid => Clear (mkMember uid) true) uids) st)
    = fold_left (fun c uid => cfg_delete (str uid) c) uids (cfg st).
Proof.
  unfold run_ops.
  induction uids as [|uid uids IH]; intros st; cbn [map fold_left]; auto.
  rewrite IH. now rewrite run_clear_cfg.
Qed.

Lemma filter_twice {A} (p q : A -> bool) (l : list A) :
  filter p (filter q l) = filter (fun x => q x && p x) l.
Proof.
  induction l as [|x l IH]; simpl; auto.
  destruct (q x); simpl; [destruct (p x)|]; now rewrite IH.
Qed.

Lemma fold_delete_filter uids : forall c,
  fold_left (fun c uid => cfg_delete (str uid) c) uids c
    = filter (fun kv =>
                negb (existsb (fun uid => String.eqb (str uid) (fst kv)) uids))
             c.
Proof.
  induction uids as [|uid uids IH]; intros c; cbn [fold_left existsb].
  - induction c as [|kv c IHc]; simpl; auto. f_equal. exact IHc.
  - rewrite IH, cfg_delete_filter, filter_twice.
    apply filter_ext. intros kv. now rewrite negb_orb.
Qed.

Lemma existsb_drifted env uid uids :
  In uid uids ->
  existsb (fun u => String.eqb (str u) (str uid)) (filter (drifted env) uids)
    = drifted env uid.
Proof.
  intros Hin. destruct (drifted env uid) eqn:E.
  - apply existsb_exists. exists uid. split.
    + apply filter_In. auto.
    + apply String.eqb_refl.
  - destruct (existsb _ _) eqn:Ex; auto.
    apply existsb_exists in Ex as [u [Hu He]].
    apply filter_In in Hu as [_ Hd].
    apply String.eqb_eq, str_inj in He. subst u. congruence.
Qed.

Lemma sweep_clears_cfg env st :
  well_formed (cfg st) ->
  cfg (run_ops env (sweep_clears env (cfg st)) st)
    = filter (fun kv => negb (drifted env (user_id (snd kv)))) (cfg st).
Proof.
  intros [_ WK]. unfold sweep_clears.
  rewrite run_clears_cfg, fold_delete_filter.
  apply filter_ext_in. intros kv Hin. f_equal.
  unfold well_keyed in WK. rewrite Forall_forall in WK.
  rewrite (WK kv Hin). apply existsb_drifted.
  unfold cfg_values. rewrite map_map. apply in_map_iff. eauto.
Qed.

Lemma st_both_muted_well_formed : well_formed (cfg st_both_muted).
Proof.
  split.
  - repeat constructor; simpl; intuition discriminate.
  - repeat constructor.
Qed.

(** C9, as stated, fails: the sweep has enumerated the records of a registry
    holding user 1, an event then clears that record, and the loop reaches
    its own clear for user 1 (in voice, not guild-muted).
    [UserNotAfkMuteError] comes out of the sweep. *)
Lemma sweep_race_counterexample :
  let info_items := cfg_values (cfg st_alice_muted) in
  let st_raced :=
    run_op env_alice_in_voice (Clear alice false) st_alice_muted in
  cfg st_raced = [] /\
  fst (fetch_loop env_alice_in_voice info_items st_raced)
    = Err UserNotAfkMuteError.
Proof. split; reflexivity. Qed.

(** The loop over a list split in two: the second part runs on the state
    the first part left, unless the first part raised. *)
Lemma fetch_loop_app env pre : forall rest st,
  fetch_loop env (pre ++ rest) st =
  match fetch_loop env pre st with
  | (Ok _, st') => fetch_loop env rest st'
  | (Err e, st') => (Err e, st')
  end.
Proof.
  induction pre as [|info pre IH]; intros rest st.
  - reflexivity.
  - change ((info :: pre) ++ rest) with (info :: (pre ++ rest)).
    rewrite !fetch_loop_cons. cbv zeta.
    destruct (fetch_member_ok env (user_id info)); [|reflexivity].
    destruct (drifted env (user_id info)); [|apply IH].
    destruct (cfg_contains _ _); [apply IH | reflexivity].
Qed.

(** C9 (amended): the sweep has no handler for [UserNotAfkMuteError].  At
    whatever position of the loop it happens: if the items before [info]
    were processed normally, and then the member of [info] is fetched, has
    drifted, and its record is no longer in the registry, the whole loop
    stops there with [UserNotAfkMuteError] handed to the caller, the
    registry as the earlier iterations left it and the remaining items
    unvisited.  A sweep that starts from a well-formed registry and is not
    interfered with never meets that error. *)
Theorem sweep_not_muted_propagates env pre info rest st st_mid :
  fetch_loop env pre st = (Ok tt, st_mid) ->
  fetch_member_ok env (user_id info) = true ->
  drifted env (user_id info) = true ->
  cfg_contains (str (user_id info)) (cfg st_mid) = false ->
  fetch_loop env (pre ++ info :: rest) st
    = (Err UserNotAfkMuteError, log_fetch (user_id info) st_mid) /\
  (forall st0, well_formed (cfg st0) ->
     fst (fetch_afk_mute_state env st0) <> Err UserNotAfkMuteError).
Proof.
  intros Hpre Hf Hd Hc. split.
  - rewrite fetch_loop_app, Hpre, fetch_loop_cons. cbv zeta.
    now rewrite Hf, Hd, Hc.
  - intros st0 WF.
    destruct (fetch_afk_mute_state_swept env st0 WF) as (_ & -> & _).
    destruct (forallb _ _); discriminate.
Qed.

(** The loop over the records of users 2, 1 and 3 on a registry that has
    lost the record of user 1: user 2 is passed, the loop raises at user 1
    and user 3 is never asked about. *)
Lemma sweep_not_muted_propagates_witness :
  fetch_loop env_alice_in_voice [mkInfo 2 1; mkInfo 1 2; mkInfo 3 1]
    (mkState [("2", mkInfo 2 1); ("3", mkInfo 3 1)] [])
  = (Err UserNotAfkMuteError,
     mkState [("2", mkInfo 2 1); ("3", mkInfo 3 1)]
             [FetchMember 2; FetchMember 1]).
Proof.
  destruct (sweep_not_muted_propagates env_alice_in_voice [mkInfo 2 1]
              (mkInfo 1 2) [mkInfo 3 1]
              (mkState [("2", mkInfo 2 1); ("3", mkInfo 3 1)] [])
              (mkState [("2", mkInfo 2 1); ("3", mkInfo 3 1)] [FetchMember 2])
              eq_refl eq_refl eq_refl eq_refl) as [H _].
  exact H.
Defined.

(** The loop, from any state and over any items: entries are only removed,
    and the only REST calls are [fetch_member] calls. *)
Lemma fetch_loop_shrinks env items : forall st,
  (forall kv, In kv (cfg (snd (fetch_loop env items st))) -> In kv (cfg st)) /\
  exists uids,
    calls (snd (fetch_loop env items st)) = calls st ++ map FetchMember uids.
Proof.
  induction items as [|info rest IH]; intros st.
  - split; auto. exists []. simpl. now rewrite app_nil_r.
  - rewrite fetch_loop_cons. cbv zeta.
    assert (Hlog : exists uids, calls (log_fetch (user_id info) st)
                                = calls st ++ map FetchMember uids)
      by (exists [user_id info]; reflexivity).
    destruct (fetch_member_ok env (user_id info)); [|split; auto].
    destruct (drifted env (user_id info)).
    + destruct (cfg_contains _ _); [|split; auto].
      destruct (IH (mkState (cfg_delete (str (user_id info)) (cfg st))
                            (calls st ++ [FetchMember (user_id info)])))
        as [H1 [uids H2]].
      split.
      * intros kv Hin. apply H1 in Hin. simpl in Hin.
        now apply cfg_delete_In in Hin.
      * exists (user_id info :: uids). rewrite H2. simpl.
        now rewrite <- app_assoc.
    + destruct (IH (log_fetch (user_id info) st)) as [H1 [uids H2]].
      split; [exact H1|].
      exists (user_id info :: uids). rewrite H2. simpl.
      now rewrite <- app_assoc.
Qed.

Lemma swept_keeps env kv l :
  In kv l -> drifted env (user_id (snd kv)) = false -> In kv (swept env l).
Proof.
  intros Hin Hd. induction l as [|[k r] l IH]; simpl in *; auto.
  destruct (fetch_member_ok env (user_id r)).
  - destruct Hin as [<- | Hin].
    + simpl in Hd. rewrite Hd. now left.
    + destruct (drifted env (user_id r)); [|right]; auto.
  - exact Hin.
Qed.

(** C10: the sweep only shrinks the registry.  From any state, every entry
    (key and record) present after [fetch_afk_mute_state] was present,
    unchanged, before it; the calls it adds to the log are [fetch_member]
    calls only, so no [edit(mute=...)] call is issued; and on a well-formed
    registry every record whose user has no voice state, or whose voice
    state is guild-muted, is still there afterwards. *)
Theorem sweep_only_shrinks env st :
  let st1 := snd (fetch_afk_mute_state env st) in
  (forall kv, In kv (cfg st1) -> In kv (cfg st)) /\
  (exists uids, calls st1 = calls st ++ map FetchMember uids) /\
  (forall uid mute,
     In (EditMute uid mute) (calls st1) -> In (EditMute uid mute) (calls st)) /\
  (well_formed (cfg st) ->
   forall kv, In kv (cfg st) -> drifted env (user_id (snd kv)) = false ->
              In kv (cfg st1)).
Proof.
  intros st1. unfold st1. rewrite fetch_afk_mute_state_eval.
  destruct (fetch_loop_shrinks env (cfg_values (cfg st)) st) as [H1 [uids H2]].
  split; [exact H1|]. split; [now exists uids|]. split.
  - intros uid mute Hin. rewrite H2 in Hin.
    apply in_app_or in Hin as [Hin|Hin]; auto.
    apply in_map_iff in Hin as [u [E _]]. discriminate.
  - intros WF kv Hin Hd.
    destruct (fetch_afk_mute_state_swept env st WF) as (Hc & _).
    rewrite fetch_afk_mute_state_eval in Hc. rewrite Hc.
    now apply swept_keeps.
Qed.

(** User 2 is not in voice: the record survives the sweep. *)
Lemma sweep_only_shrinks_witness :
  In ("2", mkInfo 2 1)
     (cfg (snd (fetch_afk_mute_state env_alice_in_voice st_both_muted))).
Proof.
  destruct (sweep_only_shrinks env_alice_in_voice st_both_muted)
    as (_ & _ & _ & H).
  apply (H st_both_muted_well_formed); [right; left|]; reflexivity.
Defined.

Example sweep_example :
  fetch_afk_mute_state env_alice_in_voice st_both_muted
    = (Ok tt, mkState [("2", mkInfo 2 1)] [FetchMember 1; FetchMember 2]).
Proof. reflexivity. Qed.

(** ** Stored dictionaries and records *)

Lemma dict_get_outside k value :
  forallb (fun kv => String.eqb (fst kv) "user_id"
                     || String.eqb (fst kv) "muter_id") value = true ->
  k <> "user_id" -> k <> "muter_id" -> dict_get k value = None.
Proof.
  intros Hall Hu Hm. induction value as [|[k' v] value IH]; simpl; auto.
  simpl in Hall. apply andb_true_iff in Hall as [Hk Hall].
  destruct (String.eqb_spec k k') as [->|N]; [|auto].
  apply orb_true_iff in Hk as [Hk|Hk]; apply String.eqb_eq in Hk; congruence.
Qed.

(** X1: the record round trip of the registry's stored values.  Building a
    record from [as_dict] of a record gives the record back, in whatever
    order the two entries come; and whenever the constructor accepts a
    dictionary, that dictionary binds every key exactly as [as_dict] of the
    result does (it holds the two fields and nothing else). *)
Theorem as_dict_round_trip (i : AfkMuteInfo) :
  AfkMuteInfo_init (as_dict i) = Some i /\
  AfkMuteInfo_init (List.rev (as_dict i)) = Some i /\
  (forall value j, AfkMuteInfo_init value = Some j ->
     forall k, dict_get k value = dict_get k (as_dict j)) /\
  AfkMuteInfo_init [("user_id", user_id i)] = None /\
  (forall k v, k <> "user_id" -> k <> "muter_id" ->
     AfkMuteInfo_init ((k, v) :: as_dict i) = None).
Proof.
  destruct i as [u m]. repeat split.
  - intros value j H k. unfold AfkMuteInfo_init in H.
    destruct (forallb _ value) eqn:Hall; [|discriminate].
    destruct (dict_get "user_id" value) as [u'|] eqn:Eu; [|discriminate].
    destruct (dict_get "muter_id" value) as [m'|] eqn:Em; [|discriminate].
    injection H as <-. simpl.
    destruct (String.eqb_spec k "user_id") as [->|Nu]; [exact Eu|].
    destruct (String.eqb_spec k "muter_id") as [->|Nm]; [exact Em|].
    now apply dict_get_outside.
  - intros k v Hu Hm. unfold AfkMuteInfo_init. simpl.
    apply String.eqb_neq in Hu, Hm. now rewrite Hu, Hm.
Qed.

(** ** Apply and clear together *)

Lemma cfg_delete_set_absent k v c :
  cfg_contains k c = false -> cfg_delete k (cfg_set k v c) = c.
Proof.
  intros H. rewrite cfg_set_absent by exact H.
  rewrite cfg_delete_app. simpl. rewrite String.eqb_refl, app_nil_r.
  apply cfg_delete_absent. now apply cfg_contains_false.
Qed.

(** X2: apply followed by clear is a round trip on the registry.  After any
    successful [set_afk_mute], a clear with [no_vc_ok=True] succeeds with no
    platform call and leaves the registry exactly as it was before the
    apply; a clear with [no_vc_ok=False] does the same, at the price of one
    unmute call, when the user is in voice and the platform accepts the
    call. *)
Theorem apply_then_clear_restores env user muter st r st1 :
  set_afk_mute env user muter st = (Ok r, st1) ->
  unset_afk_mute env user true st1 = (Ok tt, mkState (cfg st) (calls st1)) /\
  (in_vc env user = true -> edit_ok env (id user) false = true ->
   unset_afk_mute env user false st1
     = (Ok tt, mkState (cfg st) (calls st1 ++ [EditMute (id user) false]))).
Proof.
  intros H. destruct (set_afk_mute_ok _ _ _ _ _ _ H) as [Habs Hcfg].
  assert (Hc : cfg_contains (str (id user)) (cfg st1) = true).
  { rewrite Hcfg. unfold cfg_contains. now rewrite cfg_get_set_same. }
  assert (Hd : cfg_delete (str (id user)) (cfg st1) = cfg st).
  { rewrite Hcfg. now apply cfg_delete_set_absent. }
  split.
  - rewrite unset_afk_mute_eval. cbv zeta. now rewrite Hc, Hd.
  - intros Hv He. rewrite unset_afk_mute_eval. cbv zeta.
    now rewrite Hc, Hv, He, Hd.
Qed.

(** Apply and clear for user 1, in voice, from a registry holding user 2. *)
Lemma apply_then_clear_restores_witness :
  unset_afk_mute env_alice_in_voice alice false
    (mkState [("2", mkInfo 2 1); ("1", mkInfo 1 2)] [EditMute 1 true])
  = (Ok tt, mkState [("2", mkInfo 2 1)] [EditMute 1 true; EditMute 1 false]).
Proof.
  destruct (apply_then_clear_restores env_alice_in_voice alice bob
              (mkState [("2", mkInfo 2 1)] []) (mkInfo 1 2)
              (mkState [("2", mkInfo 2 1); ("1", mkInfo 1 2)]
                       [EditMute 1 true]) eq_refl) as [_ H].
  apply H; reflexivity.
Defined.

Lemma run_op_other env op other st :
  id other <> id (op_user op) ->
  cfg_get (str (id other)) (cfg (run_op env op st))
    = cfg_get (str (id other)) (cfg st).
Proof.
  intros Hne.
  assert (Hk : str (id other) <> str (id (op_user op)))
    by (intros E; apply Hne, str_inj, E).
  destruct op as [user muter | user no_vc_ok]; simpl in *.
  - destruct (set_afk_mute_cfg env user muter st) as [-> | [_ ->]]; auto.
    now apply cfg_get_set_other.
  - destruct (unset_afk_mute_cfg env user no_vc_ok st) as [-> | ->]; auto.
    now apply cfg_get_delete_other.
Qed.

(** X3: operations on other users never touch a user's record.  Whatever
    the registry holds, after any sequence of apply and clear calls none of
    which is aimed at [other], the registry binds [str(other.id)] exactly as
    before (same record or none), so [is_afk_mute(other)] answers the
    same. *)
Theorem other_users_untouched env ops other st :
  Forall (fun op => id (op_user op) <> id other) ops ->
  cfg_get (str (id other)) (cfg (run_ops env ops st))
    = cfg_get (str (id other)) (cfg st) /\
  fst (is_afk_mute other (run_ops env ops st)) = fst (is_afk_mute other st).
Proof.
  intros Hall.
  assert (E : cfg_get (str (id other)) (cfg (run_ops env ops st))
              = cfg_get (str (id other)) (cfg st)).
  { unfold run_ops. revert st.
    induction Hall as [|op ops Hop _ IH]; intros st; simpl; auto.
    rewrite IH. apply run_op_other. congruence. }
  split; [exact E|].
  rewrite !is_afk_mute_eval. simpl. unfold cfg_contains. now rewrite E.
Qed.

(** User 2 keeps the record made by user 1 while user 1 is muted and
    cleared around it. *)
Lemma other_users_untouched_witness :
  cfg_get (str (id bob))
    (cfg (run_ops env_alice_in_voice
            [Apply alice carol; Clear alice false; Apply alice bob]
            (mkState [("2", mkInfo 2 1)] [])))
  = Some (mkInfo 2 1).
Proof.
  destruct (other_users_untouched env_alice_in_voice
              [Apply alice carol; Clear alice false; Apply alice bob] bob
              (mkState [("2", mkInfo 2 1)] [])) as [H _].
  - repeat constructor; simpl; lia.
  - rewrite H. reflexivity.
Defined.


(** ** What the listeners leave alone *)

(** X4: the voice-state listener never acts on a user who has no record.
    Whatever the event and the platform state, when the member of the event
    is not AFK-muted the registry and the call log are left exactly as they
    were: such a user is never muted or unmuted by the listener (a
    guild-mute applied by someone else is not touched), and the only thing
    that can come out is [UserNotAfkMuteError]. *)
Theorem voice_listener_ignores_unmuted env event st :
  cfg_contains (str (id (member (state event)))) (cfg st) = false ->
  snd (on_voice_state_update env event st) = st /\
  (fst (on_voice_state_update env event st) = Ok tt \/
   fst (on_voice_state_update env event st) = Err UserNotAfkMuteError).
Proof.
  intros Hrec. rewrite on_voice_state_update_eval. cbv zeta. rewrite Hrec.
  rewrite unset_afk_mute_eval. cbv zeta. rewrite Hrec.
  destruct (old_state event) as [old|].
  - rewrite andb_false_r. destruct (status_changed old (state event)); auto.
  - destruct (channel_id (state event)); simpl; auto.
Qed.

(** User 1 is guild-muted by an administrator while having no record. *)
Lemma voice_listener_ignores_unmuted_witness :
  snd (on_voice_state_update env_alice_in_voice
         (mkVoiceEvent (Some (voice_of 1 false)) (voice_of 1 true))
         (mkState [("2", mkInfo 2 1)] []))
  = mkState [("2", mkInfo 2 1)] [].
Proof.
  destruct (voice_listener_ignores_unmuted env_alice_in_voice
              (mkVoiceEvent (Some (voice_of 1 false)) (voice_of 1 true))
              (mkState [("2", mkInfo 2 1)] []) eq_refl) as [H _].
  exact H.
Defined.

(** X5: the footprint of the voice-state listener, for every event and
    state.  The registry afterwards is the registry before, or the registry
    before with the key of the event's member deleted: no record is ever
    added or rewritten and no other user's record is removed.  At most one
    platform call is issued, an [edit] on that same member, and a record is
    deleted only together with an unmute call.  The listener never raises
    [UserAlreadyAfkMuteError] or [AttributeError]. *)
Theorem voice_listener_footprint env event st :
  let out := on_voice_state_update env event st in
  let m := member (state event) in
  (cfg (snd out) = cfg st \/
   cfg (snd out) = cfg_delete (str (id m)) (cfg st) /\
   calls (snd out) = calls st ++ [EditMute (id m) false]) /\
  (calls (snd out) = calls st \/
   exists mute, calls (snd out) = calls st ++ [EditMute (id m) mute]) /\
  fst out <> Err UserAlreadyAfkMuteError /\
  fst out <> Err AttributeError.
Proof.
  cbv zeta. rewrite on_voice_state_update_eval. cbv zeta.
  assert (U : forall (P : Result unit * State -> Prop),
            P (Err UserNotAfkMuteError, st) ->
            P (Err UserNotInVcError, st) ->
            P (Ok tt, mkState (cfg_delete (str (id (member (state event))))
                                          (cfg st))
                       (calls st ++ [EditMute (id (member (state event))) false])) ->
            P (Err HikariError,
               mkState (cfg st)
                 (calls st ++ [EditMute (id (member (state event))) false])) ->
            P (unset_afk_mute env (member (state event)) false st)).
  { intros P P1 P2 P3 P4. rewrite unset_afk_mute_eval. cbv zeta.
    destruct (cfg_contains _ _); simpl; auto.
    destruct (in_vc env _); simpl; auto.
    destruct (edit_ok env _ false); auto. }
  assert (G : forall out : Result unit * State,
            out = (Ok tt, st) \/
            out = unset_afk_mute env (member (state event)) false st \/
            out = edit env (member (state event)) true st ->
            (cfg (snd out) = cfg st \/
             cfg (snd out) = cfg_delete (str (id (member (state event)))) (cfg st) /\
             calls (snd out)
               = calls st ++ [EditMute (id (member (state event))) false]) /\
            (calls (snd out) = calls st \/
             exists mute, calls (snd out)
               = calls st ++ [EditMute (id (member (state event))) mute]) /\
            fst out <> Err UserAlreadyAfkMuteError /\
            fst out <> Err AttributeError).
  { intros out [-> | [-> | ->]].
    - simpl. repeat split; auto; discriminate.
    - apply U; simpl; repeat split; eauto; discriminate.
    - rewrite edit_eval. simpl. repeat split; eauto;
        destruct (edit_ok env _ true); discriminate. }
  apply G.
  destruct (old_state event) as [old|].
  - destruct (_ && _ && _); auto. destruct (status_changed _ _); auto.
  - destruct (channel_id (state event)); auto. destruct (_ && _); auto.
Qed.

(** X6: an AFK-muted user who is no longer in the voice cache.  When the
    member has a record and no cached voice state, every event that has a
    previous snapshot and either removes a guild-mute or changes one of the
    four flags makes the listener raise [UserNotInVcError]; the error is not
    handled, the record stays and no platform call is made.  Leaving voice
    with a flag reset is such an event. *)
Theorem voice_listener_left_voice env event old st :
  old_state event = Some old ->
  cfg_contains (str (id (member (state event)))) (cfg st) = true ->
  in_vc env (member (state event)) = false ->
  manually_unmuted old (state event) || status_changed old (state event)
    = true ->
  on_voice_state_update env event st = (Err UserNotInVcError, st).
Proof.
  intros Hold Hrec Hvc Hfire. unfold manually_unmuted in Hfire.
  rewrite on_voice_state_update_eval. cbv zeta. rewrite Hold, Hrec.
  rewrite unset_afk_mute_eval. cbv zeta. rewrite Hrec, Hvc. simpl.
  rewrite andb_true_r.
  destruct (is_guild_muted old && negb (is_guild_muted (state event)));
    [reflexivity|].
  simpl in Hfire. now rewrite Hfire.
Qed.

(** User 1, AFK-muted and self-muted, leaves voice. *)
Lemma voice_listener_left_voice_witness :
  on_voice_state_update env_empty_voice ev_leave st_alice_muted
    = (Err UserNotInVcError, st_alice_muted).
Proof.
  apply (voice_listener_left_voice env_empty_voice ev_leave
           (mkVoiceState alice (Some 100) false false true false false)
           st_alice_muted); reflexivity.
Defined.

(** X7: the footprint of the message and reaction listener, for every
    event and state.  It raises [AttributeError] exactly when the event
    carries no member (a reaction by a user missing from the member cache, a
    message without author member), and then nothing is touched.  Otherwise
    it returns normally or with the error of the unmute call: none of the
    three AFK-mute errors ever leaves it.  For a member without a record it
    does nothing.  The registry afterwards is the registry before, possibly
    with that member's key deleted together with exactly one unmute call on
    that member. *)
Theorem message_listener_footprint env event st :
  let out := on_member_message_action env event st in
  (acting_member env event = None -> out = (Err AttributeError, st)) /\
  (forall m, acting_member env event = Some m ->
     (fst out = Ok tt \/ fst out = Err HikariError) /\
     (cfg_contains (str (id m)) (cfg st) = false -> out = (Ok tt, st)) /\
     (snd out = st \/
      calls (snd out) = calls st ++ [EditMute (id m) false] /\
      (cfg (snd out) = cfg_delete (str (id m)) (cfg st) /\ fst out = Ok tt \/
       cfg (snd out) = cfg st /\ fst out = Err HikariError))).
Proof.
  cbv zeta. rewrite on_member_message_action_eval.
  split; [now intros ->|]. intros m ->.
  unfold try_except_UserNotInVcError. rewrite unset_afk_mute_eval. cbv zeta.
  destruct (cfg_contains (str (id m)) (cfg st)); simpl.
  - destruct (in_vc env m); simpl.
    + destruct (edit_ok env (id m) false); simpl;
        repeat split; auto; discriminate.
    + repeat split; auto; discriminate.
  - repeat split; auto.
Qed.

(** A reaction by a user the member cache does not know. *)
Lemma message_listener_footprint_witness :
  on_member_message_action
    (mkPlatform (fun _ => None) (fun _ _ => true) (fun _ => true)
                (fun _ => None))
    (GuildReactionEvent 1) st_alice_muted
  = (Err AttributeError, st_alice_muted).
Proof.
  destruct (message_listener_footprint
              (mkPlatform (fun _ => None) (fun _ _ => true) (fun _ => true)
                          (fun _ => None))
              (GuildReactionEvent 1) st_alice_muted) as [H _].
  apply H. reflexivity.
Defined.

(** ** The sweep and a failing [fetch_member] *)

Lemma swept_stop env pre k r post :
  forallb (fun x => fetch_member_ok env (user_id x)) (cfg_values pre) = true ->
  fetch_member_ok env (user_id r) = false ->
  swept env (pre ++ (k, r) :: post)
    = filter (fun kv => negb (drifted env (user_id (snd kv)))) pre
      ++ (k, r) :: post.
Proof.
  intros Hpre Hr. induction pre as [|[k' r'] pre IH]; simpl in *.
  - now rewrite Hr.
  - apply andb_true_iff in Hpre as [-> Hpre].
    destruct (drifted env (user_id r')); simpl; now rewrite IH.
Qed.

Lemma visited_stop env pre r post :
  forallb (fun x => fetch_member_ok env (user_id x)) pre = true ->
  fetch_member_ok env (user_id r) = false ->
  visited env (pre ++ r :: post) = map user_id pre ++ [user_id r].
Proof.
  intros Hpre Hr. induction pre as [|r' pre IH]; simpl in *.
  - now rewrite Hr.
  - apply andb_true_iff in Hpre as [-> Hpre]. now rewrite IH.
Qed.

Lemma forallb_stop env pre r post :
  fetch_member_ok env (user_id r) = false ->
  forallb (fun x => fetch_member_ok env (user_id x)) (pre ++ r :: post)
    = false.
Proof.
  intros Hr. rewrite forallb_app. simpl. rewrite Hr.
  now rewrite andb_false_r.
Qed.

(** X8: the sweep stops at the first member it cannot fetch.  On a
    well-formed registry, when [fetch_member] succeeds for the records
    before some record and fails for that one, the sweep raises the REST
    error after asking the platform about exactly those records; the
    drifted records before the failing one are gone, and the failing record
    and every record after it are left in place, drifted or not. *)
Theorem sweep_stops_at_failed_fetch env st pre k r post :
  well_formed (cfg st) ->
  cfg st = pre ++ (k, r) :: post ->
  forallb (fun x => fetch_member_ok env (user_id x)) (cfg_values pre) = true ->
  fetch_member_ok env (user_id r) = false ->
  fetch_afk_mute_state env st =
  (Err HikariError,
   mkState (filter (fun kv => negb (drifted env (user_id (snd kv)))) pre
            ++ (k, r) :: post)
           (calls st
            ++ map FetchMember (map user_id (cfg_values pre) ++ [user_id r]))).
Proof.
  intros WF Hcfg Hpre Hr.
  destruct (fetch_afk_mute_state_swept env st WF) as (Hc & Hf & Hl).
  rewrite Hcfg in Hc, Hf, Hl.
  rewrite (swept_stop env pre k r post Hpre Hr) in Hc.
  unfold cfg_values in Hf, Hl. rewrite map_app in Hf, Hl. simpl in Hf, Hl.
  rewrite (forallb_stop env _ r _ Hr) in Hf.
  rewrite (visited_stop env _ r _ Hpre Hr) in Hl.
  destruct (fetch_afk_mute_state env st) as [res [c cs]]. simpl in *.
  now subst.
Qed.

Lemma st_three_muted_well_formed : well_formed (cfg st_three_muted).
Proof.
  split.
  - repeat constructor; simpl; intuition discriminate.
  - repeat constructor.
Qed.

(** Users 1 and 3 have drifted and user 2 cannot be fetched: only the
    record of user 1 is cleared. *)
Lemma sweep_stops_at_failed_fetch_witness :
  fetch_afk_mute_state env_three st_three_muted
  = (Err HikariError,
     mkState [("2", mkInfo 2 1); ("3", mkInfo 3 1)]
             [FetchMember 1; FetchMember 2]).
Proof.
  apply (sweep_stops_at_failed_fetch env_three st_three_muted
           [("1", mkInfo 1 2)] "2" (mkInfo 2 1) [("3", mkInfo 3 1)]
           st_three_muted_well_formed); reflexivity.
Defined.

(** ** The sweep as a whole *)

(** C8, as stated, fails: users 1 and 3 both have a record and a voice state
    that is not guild-muted, but [fetch_member] fails for user 2, whose
    record sits between theirs.  The sweep raises at user 2 and the record
    of user 3 is still there: no clear was called for that user. *)
Lemma sweep_aborted_counterexample :
  cfg_get (str 3) (cfg st_three_muted) = Some (mkInfo 3 1) /\
  drifted env_three 3 = true /\
  fst (fetch_afk_mute_state env_three st_three_muted) = Err HikariError /\
  cfg_get (str 3) (cfg (snd (fetch_afk_mute_state env_three st_three_muted)))
    = Some (mkInfo 3 1).
Proof. repeat split. Qed.

(** C8 (amended): the sweep [fetch_afk_mute_state] on a well-formed
    registry.  It is idempotent: running it again on the state it left, with
    the same platform answers, leaves the registry as the first run left it,
    whether or not a [fetch_member] call failed.  When every [fetch_member]
    call succeeds the sweep returns normally, asks the platform about every
    stored record in turn, and the registry it leaves is the one obtained by
    calling [unset_afk_mute(member, no_vc_ok=True)] exactly for the users
    whose voice state exists and is not guild-muted: exactly their records
    are gone, all others are kept in order.  When [fetch_member] fails for
    some record after succeeding for the ones before it, the sweep raises
    that error: the records before it have been treated as above and that
    record and every later one are left as they are. *)
Theorem fetch_afk_mute_state_sweep env st :
  well_formed (cfg st) ->
  let st1 := snd (fetch_afk_mute_state env st) in
  cfg (snd (fetch_afk_mute_state env st1)) = cfg st1 /\
  (forallb (fun r => fetch_member_ok env (user_id r)) (cfg_values (cfg st))
     = true ->
   fst (fetch_afk_mute_state env st) = Ok tt /\
   calls st1
     = calls st ++ map FetchMember (map user_id (cfg_values (cfg st))) /\
   cfg st1 = cfg (run_ops env (sweep_clears env (cfg st)) st) /\
   cfg st1
     = filter (fun kv => negb (drifted env (user_id (snd kv)))) (cfg st)) /\
  (forall pre k r post,
     cfg st = pre ++ (k, r) :: post ->
     forallb (fun x => fetch_member_ok env (user_id x)) (cfg_values pre)
       = true ->
     fetch_member_ok env (user_id r) = false ->
     fst (fetch_afk_mute_state env st) = Err HikariError /\
     calls st1
       = calls st
         ++ map FetchMember (map user_id (cfg_values pre) ++ [user_id r]) /\
     cfg st1
       = filter (fun kv => negb (drifted env (user_id (snd kv)))) pre
         ++ (k, r) :: post).
Proof.
  intros WF st1.
  destruct (fetch_afk_mute_state_swept env st WF) as (Hc & Hr & Hl).
  fold st1 in Hc, Hl.
  assert (WF1 : well_formed (cfg st1)).
  { unfold st1. rewrite fetch_afk_mute_state_eval.
    now apply fetch_loop_well_formed. }
  split; [|split].
  - destruct (fetch_afk_mute_state_swept env st1 WF1) as (Hc1 & _).
    rewrite Hc1, Hc. apply swept_idempotent.
  - intros Hall. rewrite Hall in Hr.
    rewrite sweep_clears_cfg by exact WF.
    rewrite <- (swept_all_fetched env (cfg st) Hall).
    rewrite <- (visited_all_fetched env _ Hall).
    auto.
  - intros pre k r post Hcfg Hpre Hfail.
    rewrite Hcfg in Hc, Hr, Hl.
    rewrite (swept_stop env pre k r post Hpre Hfail) in Hc.
    unfold cfg_values in Hr, Hl. rewrite map_app in Hr, Hl.
    simpl in Hr, Hl.
    rewrite (forallb_stop env _ r _ Hfail) in Hr.
    rewrite (visited_stop env _ r _ Hpre Hfail) in Hl.
    auto.
Qed.

(** The sweep over two records of which only user 1 has drifted, and the
    sweep over three records that is stopped at user 2. *)
Lemma fetch_afk_mute_state_sweep_witness :
  fst (fetch_afk_mute_state env_alice_in_voice st_both_muted) = Ok tt /\
  cfg (snd (fetch_afk_mute_state env_alice_in_voice st_both_muted))
    = [("2", mkInfo 2 1)] /\
  fst (fetch_afk_mute_state env_three st_three_muted) = Err HikariError /\
  cfg (snd (fetch_afk_mute_state env_three st_three_muted))
    = [("2", mkInfo 2 1); ("3", mkInfo 3 1)].
Proof.
  destruct (fetch_afk_mute_state_sweep env_alice_in_voice st_both_muted
              st_both_muted_well_formed) as (_ & H & _).
  destruct (H eq_refl) as (H1 & _ & _ & H4).
  destruct (fetch_afk_mute_state_sweep env_three st_three_muted
              st_three_muted_well_formed) as (_ & _ & F).
  destruct (F [("1", mkInfo 1 2)] "2" (mkInfo 2 1) [("3", mkInfo 3 1)]
              eq_refl eq_refl eq_refl) as (F1 & _ & F3).
  split; [exact H1|]. split; [rewrite H4; reflexivity|].
  split; [exact F1|]. rewrite F3. reflexivity.
Defined.

(** ** The slash commands *)







(** ** Every entry point keeps the registry well formed *)

Lemma edit_cfg env user mute st : cfg (snd (edit env user mute st)) = cfg st.
Proof. now rewrite edit_eval. Qed.

Lemma unset_keeps_well_formed env user no_vc_ok st :
  well_formed (cfg st) ->
  well_formed (cfg (snd (unset_afk_mute env user no_vc_ok st))).
Proof.
  intros WF.
  destruct (unset_afk_mute_cfg env user no_vc_ok st) as [-> | ->]; auto.
  now apply well_formed_delete.
Qed.

Lemma set_keeps_well_formed env user muter st :
  well_formed (cfg st) ->
  well_formed (cfg (snd (set_afk_mute env user muter st))).
Proof.
  intros WF.
  destruct (set_afk_mute_cfg env user muter st) as [-> | [H ->]]; auto.
  now apply well_formed_set.
Qed.

(** X11: well-formedness of the registry (one entry per key, each stored
    under [str] of its own [user_id]) is kept by every entry point of the
    program, whatever it returns or raises: the voice-state listener, the
    message and reaction listener, the sweep, and the two commands.  With
    C1 this makes [is_afk_mute] agree with the stored records after any of
    them. *)
Theorem entry_points_keep_well_formed env st :
  well_formed (cfg st) ->
  (forall event,
     well_formed (cfg (snd (on_voice_state_update env event st)))) /\
  (forall event,
     well_formed (cfg (snd (on_member_message_action env event st)))) /\
  well_formed (cfg (snd (fetch_afk_mute_state env st))) /\
  (forall target invoker,
     well_formed (cfg (snd (afkmute env target invoker st)))) /\
  (forall invoker, well_formed (cfg (snd (unafkmute env invoker st)))).
Proof.
  intros WF. split; [|split; [|split; [|split]]].
  - intros event. rewrite on_voice_state_update_eval. cbv zeta.
    destruct (old_state event) as [old|].
    + destruct (_ && _ && _); [now apply unset_keeps_well_formed|].
      destruct (status_changed _ _); [now apply unset_keeps_well_formed|].
      exact WF.
    + destruct (channel_id (state event)); [|exact WF].
      destruct (_ && _); [|exact WF]. now rewrite edit_cfg.
  - intros event. rewrite on_member_message_action_eval.
    destruct (acting_member env event) as [m|]; [|exact WF].
    destruct (cfg_contains _ _); [|exact WF].
    unfold try_except_UserNotInVcError.
    pose proof (unset_keeps_well_formed env m false st WF) as H.
    destruct (unset_afk_mute env m false st) as [[u|[]] st']; exact H.
  - rewrite fetch_afk_mute_state_eval. now apply fetch_loop_well_formed.
  - intros target invoker. unfold afkmute.
    pose proof (set_keeps_well_formed env target invoker st WF) as H.
    destruct (set_afk_mute env target invoker st) as [[i|[]] st']; exact H.
  - intros invoker. unfold unafkmute.
    pose proof (unset_keeps_well_formed env invoker false st WF) as H.
    destruct (unset_afk_mute env invoker false st) as [[u|[]] st']; exact H.
Qed.

(** The registry left by a sweep that was stopped by a failing fetch. *)
Lemma entry_points_keep_well_formed_witness :
  well_formed (cfg (snd (fetch_afk_mute_state env_three st_three_muted))).
Proof.
  destruct (entry_points_keep_well_formed env_three st_three_muted
              st_three_muted_well_formed) as (_ & _ & H & _).
  exact H.
Defined.

(** ** The start-up listener *)

Lemma wait_ready_false ready n : forall i,
  (forall j, (i <= j < i + n)%nat -> ready j = false) ->
  wait_ready ready i n = false.
Proof.
  induction n as [|n IH]; intros i H; simpl; auto.
  rewrite (H i) by lia. apply IH. intros j Hj. apply H. lia.
Qed.

Lemma wait_ready_true ready n : forall i j,
  (i <= j < i + n)%nat -> ready j = true -> wait_ready ready i n = true.
Proof.
  induction n as [|n IH]; intros i j Hj Hr; simpl; [lia|].
  destruct (ready i) eqn:E; auto.
  apply (IH (S i) j); auto.
  assert (i <> j) by congruence. lia.
Qed.

(** X12: the readiness wait is bounded by ten polls.  When [s.is_ready] is
    not seen set at any of the first ten polls, [on_started] returns
    normally without fetching the guilds or sweeping any registry, even if
    the flag is set later and whatever drift the registries hold. *)
Theorem on_started_gives_up bot s :
  (forall n, (n < 10)%nat -> is_ready bot n = false) ->
  on_started bot s = (Ok tt, s).
Proof.
  intros H. unfold on_started.
  rewrite wait_ready_false; [reflexivity|].
  intros j Hj. apply H. lia.
Qed.

(** Ready at the eleventh poll: nothing is swept. *)
Lemma on_started_gives_up_witness :
  on_started bot_late store_both = (Ok tt, store_both).
Proof.
  apply (on_started_gives_up bot_late store_both).
  intros n Hn. change (Nat.leb 10 n = false). apply Nat.leb_gt. exact Hn.
Defined.

Lemma store_set_same g st s : store_set g st s g = st.
Proof. unfold store_set. now rewrite Z.eqb_refl. Qed.

Lemma store_set_other g g' st s : g' <> g -> store_set g st s g' = s g'.
Proof.
  intros H. unfold store_set. apply Z.eqb_neq in H. now rewrite H.
Qed.

Lemma sweep_guilds_outside bot guilds : forall s g,
  ~ In g guilds -> snd (sweep_guilds bot guilds s) g = s g.
Proof.
  induction guilds as [|g0 rest IH]; intros s g Hn; simpl; auto.
  assert (g <> g0) by (intros ->; apply Hn; now left).
  assert (~ In g rest) by (intros Hin; apply Hn; now right).
  destruct (fetch_afk_mute_state (guild_env bot g0) (s g0)) as [[u|e] st'].
  - rewrite IH by assumption. now apply store_set_other.
  - simpl. now apply store_set_other.
Qed.

Lemma sweep_guilds_stop bot post g e : forall pre s,
  NoDup (pre ++ g :: post) ->
  (forall g', In g' pre -> fst (guild_sweep bot s g') = Ok tt) ->
  fst (guild_sweep bot s g) = Err e ->
  let out := sweep_guilds bot (pre ++ g :: post) s in
  fst out = Err e /\
  (forall g', In g' pre \/ g' = g ->
              snd out g' = snd (guild_sweep bot s g')) /\
  (forall g', In g' post -> snd out g' = s g').
Proof.
  unfold guild_sweep.
  induction pre as [|g0 pre IH]; intros s ND Hpre Hg; cbv zeta; simpl.
  - simpl in ND. inversion ND as [|? ? Hn _]; subst.
    destruct (fetch_afk_mute_state (guild_env bot g) (s g))
      as [[u|e'] st'] eqn:Eg; simpl in Hg; [discriminate|].
    injection Hg as ->.
    simpl. split; [reflexivity|]. split.
    + intros g' [[]| ->]. rewrite Eg. apply store_set_same.
    + intros g' Hin. apply store_set_other. intros ->. now apply Hn.
  - simpl in ND. inversion ND as [|? ? Hn ND']; subst.
    pose proof (Hpre g0 (or_introl eq_refl)) as H0.
    destruct (fetch_afk_mute_state (guild_env bot g0) (s g0))
      as [[u|e'] st'] eqn:E0; simpl in H0; [|discriminate].
    assert (Hs : forall g', In g' (pre ++ g :: post) ->
                            store_set g0 st' s g' = s g').
    { intros g' Hin. apply store_set_other. intros ->. now apply Hn. }
    destruct (IH (store_set g0 st' s) ND') as (H1 & H2 & H3).
    + intros g' Hin. rewrite Hs by (apply in_or_app; now left).
      apply Hpre. now right.
    + rewrite Hs by (apply in_or_app; right; now left). exact Hg.
    + split; [exact H1|]. split.
      * intros g' [[<- | Hin] | ->].
        -- rewrite sweep_guilds_outside by exact Hn.
           rewrite store_set_same. now rewrite E0.
        -- rewrite H2 by (left; exact Hin).
           now rewrite Hs by (apply in_or_app; now left).
        -- rewrite H2 by (right; reflexivity).
           now rewrite Hs by (apply in_or_app; right; now left).
      * intros g' Hin. rewrite H3 by exact Hin.
        apply Hs. apply in_or_app. right. now right.
Qed.

Lemma sweep_guilds_all bot guilds : forall s,
  NoDup guilds ->
  (forall g, In g guilds -> fst (guild_sweep bot s g) = Ok tt) ->
  fst (sweep_guilds bot guilds s) = Ok tt /\
  (forall g, In g guilds ->
             snd (sweep_guilds bot guilds s) g = snd (guild_sweep bot s g)).
Proof.
  unfold guild_sweep.
  induction guilds as [|g0 rest IH]; intros s ND Hall; simpl.
  - split; [reflexivity | intros g []].
  - inversion ND as [|? ? Hn ND']; subst.
    pose proof (Hall g0 (or_introl eq_refl)) as H0.
    destruct (fetch_afk_mute_state (guild_env bot g0) (s g0))
      as [[u|e'] st'] eqn:E0; simpl in H0; [|discriminate].
    assert (Hs : forall g', In g' rest -> store_set g0 st' s g' = s g').
    { intros g' Hin. apply store_set_other. intros ->. now apply Hn. }
    destruct (IH (store_set g0 st' s) ND') as (H1 & H2).
    + intros g' Hin. rewrite Hs by exact Hin. apply Hall. now right.
    + split; [exact H1|]. intros g' [<- | Hin].
      * rewrite sweep_guilds_outside by exact Hn.
        rewrite store_set_same. now rewrite E0.
      * rewrite H2 by exact Hin. now rewrite Hs by exact Hin.
Qed.

(** X13: [on_started], once ready, sweeps the guilds in the order the
    platform lists them and stops at the first sweep that raises.  Suppose
    the flag is seen set within the ten polls and the guild list is fetched
    without repetition.  Registries of guilds outside the list are not
    touched.  If every guild's sweep returns, [on_started] returns and each
    listed guild holds the state its sweep left.  If the sweep of some guild
    raises after those of the guilds before it returned, that error leaves
    [on_started], the guilds up to and including that one hold the states
    their sweeps left, and every guild after it is left unswept. *)
Theorem on_started_sweeps_in_order bot s guilds n :
  (n < 10)%nat -> is_ready bot n = true ->
  fetch_my_guilds bot = Some guilds ->
  NoDup guilds ->
  let out := on_started bot s in
  (forall g, ~ In g guilds -> snd out g = s g) /\
  ((forall g, In g guilds -> fst (guild_sweep bot s g) = Ok tt) ->
   fst out = Ok tt /\
   forall g, In g guilds -> snd out g = snd (guild_sweep bot s g)) /\
  (forall pre g post e,
     guilds = pre ++ g :: post ->
     (forall g', In g' pre -> fst (guild_sweep bot s g') = Ok tt) ->
     fst (guild_sweep bot s g) = Err e ->
     fst out = Err e /\
     (forall g', In g' pre \/ g' = g ->
                 snd out g' = snd (guild_sweep bot s g')) /\
     (forall g', In g' post -> snd out g' = s g')).
Proof.
  intros Hn Hr Hg ND. cbv zeta. unfold on_started.
  rewrite (wait_ready_true (is_ready bot) 10 0 n) by (auto; lia).
  rewrite Hg. split; [|split].
  - intros g Hout. now apply sweep_guilds_outside.
  - intros Hall. now apply sweep_guilds_all.
  - intros pre g post e -> Hpre He.
    now apply (sweep_guilds_stop bot post g e pre s ND Hpre He).
Qed.

(** Guild 10 cannot fetch user 2, so its sweep raises after clearing user
    1; guild 20 is never swept although user 1 has drifted there too. *)
Lemma on_started_sweeps_in_order_witness :
  fst (on_started bot_ready store_both) = Err HikariError /\
  cfg (snd (on_started bot_ready store_both) 10) = [("2", mkInfo 2 1)] /\
  snd (on_started bot_ready store_both) 20 = st_both_muted.
Proof.
  assert (ND : NoDup [10; 20]).
  { repeat constructor; simpl; intuition discriminate. }
  destruct (on_started_sweeps_in_order bot_ready store_both [10; 20] 2%nat
              ltac:(lia) eq_refl eq_refl ND) as (_ & _ & H).
  destruct (H [] 10 [20] HikariError eq_refl) as (H1 & H2 & H3).
  - intros g' [].
  - reflexivity.
  - split; [exact H1|]. split.
    + rewrite H2 by (right; reflexivity). reflexivity.
    + apply H3. now left.
Defined.

Lemma shrinks_refl st : shrinks st st.
Proof. split; auto. Qed.

Lemma shrinks_trans st1 st2 st3 :
  shrinks st1 st2 -> shrinks st2 st3 -> shrinks st1 st3.
Proof. intros [A1 B1] [A2 B2]. split; auto. Qed.

Lemma sweep_shrinks env st : shrinks (snd (fetch_afk_mute_state env st)) st.
Proof.
  rewrite fetch_afk_mute_state_eval.
  destruct (fetch_loop_shrinks env (cfg_values (cfg st)) st) as [H1 [uids H2]].
  split; [exact H1|].
  intros uid mute Hin. rewrite H2 in Hin.
  apply in_app_or in Hin as [Hin|Hin]; auto.
  apply in_map_iff in Hin as [u [E _]]. discriminate.
Qed.

Lemma sweep_guilds_shrinks bot guilds : forall s g,
  shrinks (snd (sweep_guilds bot guilds s) g) (s g).
Proof.
  induction guilds as [|g0 rest IH]; intros s g; simpl.
  - apply shrinks_refl.
  - pose proof (sweep_shrinks (guild_env bot g0) (s g0)) as H0.
    assert (Hstep : forall st', shrinks st' (s g0) ->
                                shrinks (store_set g0 st' s g) (s g)).
    { intros st' H. unfold store_set.
      destruct (Z.eqb_spec g g0) as [->|N]; [exact H | apply shrinks_refl]. }
    destruct (fetch_afk_mute_state (guild_env bot g0) (s g0)) as [[u|e] st'];
      simpl in H0.
    + eapply shrinks_trans; [apply IH | now apply Hstep].
    + simpl. now apply Hstep.
Qed.

(** X14: [on_started] only removes records.  Whatever the readiness flag,
    the guild list (repetitions included) and the platform do, every entry
    of every guild's registry after [on_started] was an entry of that
    registry before, and no [edit(mute=...)] call is added to any guild's
    log: the start-up pass never mutes or unmutes anyone and never creates
    or rewrites a record. *)
Theorem on_started_only_shrinks bot s g :
  (forall kv, In kv (cfg (snd (on_started bot s) g)) -> In kv (cfg (s g))) /\
  (forall uid mute,
     In (EditMute uid mute) (calls (snd (on_started bot s) g)) ->
     In (EditMute uid mute) (calls (s g))).
Proof.
  change (shrinks (snd (on_started bot s) g) (s g)).
  unfold on_started.
  destruct (wait_ready _ _ _); [|apply shrinks_refl].
  destruct (fetch_my_guilds bot) as [guilds|]; [|apply shrinks_refl].
  apply sweep_guilds_shrinks.
Qed.
